(** * wmr development middleware: transform pipeline, cache and watcher

    A shallow embedding of [src/wmr-middleware.js]: the in-memory
    [WRITE_CACHE], the file watcher's [change] handler with its debounced
    notification, the request handler with its transform dispatch, the
    [TRANSFORMS] pipelines and [writeCacheFile].

    Conventions.
    - JavaScript strings are modelled by [string]; every regular expression
      of the source only inspects ASCII characters.
    - [WRITE_CACHE] (a JS [Map]) is a [gmap string string].
    - Code that can throw lives in a state-and-exception monad [M]; every
      call to a collaborator outside the file (the file system, the plugin
      container, [transformImports], the response object, the callbacks) is
      recorded in the [log] of the state, in program order.
    - The collaborators are the fields of the class [Collaborators].
    - A request runs to completion: what other requests do at its [await]s
      is not modelled.  The one promise nobody awaits, the tail of
      [writeCacheFile], is kept in [background] and run by [settle].
    - A file-system operation is recorded, and acts on the [world], when
      its promise settles. *)

From stdpp Require Import gmap strings list fin_maps.
From Stdlib Require Import Ascii String DecimalString ZArith Lia.

(* ================================================================== *)
(** ** Strings *)

Module Str.

(** [String.prototype.endsWith]. *)
Fixpoint endsWith (s t : string) : bool :=
  String.eqb s t ||
  match s with
  | EmptyString => false
  | String _ s' => endsWith s' t
  end.

(** [String.prototype.startsWith]. *)
Definition startsWith (s t : string) : bool := String.prefix t s.

(** [s.split(sep)] for a one-character separator. *)
Fixpoint split (sep : ascii) (s : string) : list string :=
  match s with
  | EmptyString => [EmptyString]
  | String a s' =>
      if Ascii.eqb a sep then EmptyString :: split sep s'
      else match split sep s' with
           | h :: t => String a h :: t
           | [] => [String a EmptyString]
           end
  end.

(** [parts.join(sep)]. *)
Fixpoint join (sep : string) (parts : list string) : string :=
  match parts with
  | [] => EmptyString
  | [x] => x
  | x :: rest => x +:+ sep +:+ join sep rest
  end.

(** The spec's "name ending in": [s] is some prefix followed by [t]. *)
Definition ends_with (s t : string) : Prop := ∃ p, s = p +:+ t.

(** The spec's "leading": [s] is [t] followed by something. *)
Definition starts_with (s t : string) : Prop := ∃ r, s = t +:+ r.

End Str.

(* ================================================================== *)
(** ** Regular expressions

    The regular expressions of the source are values of [re]; they are run
    by Brzozowski derivatives.  [test_end X s] is [/X$/.test(s)] and
    [test_start X s] is [/^X/.test(s)] (no flags: [$] is the end of the
    input, and an unanchored side may start at any position). *)

Module Regex.

Inductive re : Type :=
| Void
| Eps
| Cls (p : ascii → bool)
| Cat (r1 r2 : re)
| Alt (r1 r2 : re)
| Star (r : re).

(** [c] *)
Definition Chr (c : ascii) : re := Cls (Ascii.eqb c).
(** [[ab]] *)
Definition OneOf2 (a b : ascii) : re :=
  Cls (fun c => Ascii.eqb c a || Ascii.eqb c b).
(** [r?] *)
Definition Opt (r : re) : re := Alt r Eps.
(** a literal word *)
Fixpoint Lit (w : string) : re :=
  match w with
  | EmptyString => Eps
  | String a w' => Cat (Chr a) (Lit w')
  end.

(** [\w] is [[A-Za-z0-9_]]. *)
Definition is_word (c : ascii) : bool :=
  let n := nat_of_ascii c in
  ((65 <=? n) && (n <=? 90)) || ((97 <=? n) && (n <=? 122)) ||
  ((48 <=? n) && (n <=? 57)) || (n =? 95).
Definition Word : re := Cls is_word.

Fixpoint nullable (r : re) : bool :=
  match r with
  | Void => false
  | Eps => true
  | Cls _ => false
  | Cat r1 r2 => nullable r1 && nullable r2
  | Alt r1 r2 => nullable r1 || nullable r2
  | Star _ => true
  end.

Fixpoint deriv (a : ascii) (r : re) : re :=
  match r with
  | Void => Void
  | Eps => Void
  | Cls p => if p a then Eps else Void
  | Cat r1 r2 =>
      if nullable r1 then Alt (Cat (deriv a r1) r2) (deriv a r2)
      else Cat (deriv a r1) r2
  | Alt r1 r2 => Alt (deriv a r1) (deriv a r2)
  | Star r1 => Cat (deriv a r1) (Star r1)
  end.

(** [r] matches the whole of [s]. *)
Fixpoint matches (r : re) (s : string) : bool :=
  match s with
  | EmptyString => nullable r
  | String a s' => matches (deriv a r) s'
  end.

(** [r] matches some prefix of [s]. *)
Fixpoint matches_prefix (r : re) (s : string) : bool :=
  nullable r ||
  match s with
  | EmptyString => false
  | String a s' => matches_prefix (deriv a r) s'
  end.

(** [/X$/.test(s)]: some start position from which [X] matches up to the
    end of the input. *)
Fixpoint test_end (X : re) (s : string) : bool :=
  matches X s ||
  match s with
  | EmptyString => false
  | String _ s' => test_end X s'
  end.

(** [/^X/.test(s)]. *)
Definition test_start (X : re) (s : string) : bool := matches_prefix X s.

(** [s.replace(/X$/, '')]: the leftmost start position from which [X]
    matches up to the end is where the string is cut. *)
Fixpoint remove_end (X : re) (s : string) : string :=
  if matches X s then EmptyString
  else match s with
       | EmptyString => EmptyString
       | String a s' => String a (remove_end X s')
       end.

(** [s.replace(/^w/, '')] for a literal word [w]. *)
Definition remove_start_lit (w s : string) : string :=
  if String.prefix w s then String.substring (String.length w) (String.length s - String.length w) s
  else s.

(** The language of a regular expression. *)
Inductive lang : re → string → Prop :=
| lang_eps : lang Eps EmptyString
| lang_cls p a : p a = true → lang (Cls p) (String a EmptyString)
| lang_cat r1 r2 s1 s2 :
    lang r1 s1 → lang r2 s2 → lang (Cat r1 r2) (s1 +:+ s2)
| lang_alt_l r1 r2 s : lang r1 s → lang (Alt r1 r2) s
| lang_alt_r r1 r2 s : lang r2 s → lang (Alt r1 r2) s
| lang_star_nil r : lang (Star r) EmptyString
| lang_star_cons r s1 s2 :
    lang r s1 → lang (Star r) s2 → lang (Star r) (s1 +:+ s2).

End Regex.

(* ================================================================== *)
(** ** The middleware *)

Module Wmr.
Import Regex.

(** *** The regular expressions of the source *)

(** [/\.module\.css$/] *)
Definition re_module_css : re := Lit ".module.css".
(** [/\.([tj]sx?)$/] *)
Definition re_script_ext : re :=
  Cat (Chr ".") (Cat (OneOf2 "t" "j") (Cat (Chr "s") (Opt (Chr "x")))).
(** [/\.\w{2,}$/] *)
Definition re_long_ext : re := Cat (Chr ".") (Cat Word (Cat Word (Star Word))).
(** [/\.css\.js$/] *)
Definition re_css_js : re := Lit ".css.js".
(** [/\.([mc]js|[tj]sx?)$/] *)
Definition re_module_ext : re :=
  Cat (Chr ".")
      (Alt (Cat (OneOf2 "m" "c") (Lit "js"))
           (Cat (OneOf2 "t" "j") (Cat (Chr "s") (Opt (Chr "x"))))).
(** [/\.(css|s[ac]ss)$/] *)
Definition re_style_ext : re :=
  Cat (Chr ".") (Alt (Lit "css") (Cat (Chr "s") (Cat (OneOf2 "a" "c") (Lit "ss")))).
(** [/^\.?\.?\//] *)
Definition re_rel_or_abs : re := Cat (Opt (Chr ".")) (Cat (Opt (Chr ".")) (Chr "/")).
(** [/\.js$/] *)
Definition re_js : re := Lit ".js".

(** [/(^|[/\\])(node_modules|\.git|\.DS_Store)([/\\]|$)/], the first
    entry of the watcher's [ignored] option.  [ignored_here s] is the part
    after the first group matched at the start of [s]: a name up to the end
    of the input, or a name and a separator.  The first group is the start
    of the input or a separator at any position. *)
Definition is_sep (c : ascii) : bool := Ascii.eqb c "/" || Ascii.eqb c "\".
Definition re_ignored_names : re :=
  Alt (Lit "node_modules") (Alt (Lit ".git") (Lit ".DS_Store")).
Definition ignored_here (s : string) : bool :=
  matches re_ignored_names s || matches_prefix (Cat re_ignored_names (Cls is_sep)) s.
Fixpoint ignored_after_sep (s : string) : bool :=
  match s with
  | EmptyString => false
  | String c s' => (is_sep c && ignored_here s') || ignored_after_sep s'
  end.
Definition is_ignored (path : string) : bool := ignored_here path || ignored_after_sep path.

(** *** Values *)

(** What a [throw] carries: [null], [undefined], or any other value (an
    [Error] object, named here by its message). *)
Inductive thrown : Type :=
| ThrowNull
| ThrowUndefined
| ThrowValue (e : string).

(** [e == null] *)
Definition is_nullish (e : thrown) : bool :=
  match e with
  | ThrowNull | ThrowUndefined => true
  | ThrowValue _ => false
  end.

Inductive result (A : Type) : Type :=
| Ok (a : A)
| Throw (e : thrown).
Arguments Ok {A} a.
Arguments Throw {A} e.

(** What a transform resolves to: content, [false], or [null]/[undefined]. *)
Inductive presult : Type :=
| PContent (body : string)
| PFalse
| PNullish.

(** What [container.load] resolves to: a string, an object with a [code]
    property (possibly missing), or nothing. *)
Inductive load_result : Type :=
| LoadString (s : string)
| LoadObject (code : option string)
| LoadNothing.

(** [typeof result === 'string' ? result : result && result.code] *)
Definition load_code (r : load_result) : option string :=
  match r with
  | LoadString s => Some s
  | LoadObject code => code
  | LoadNothing => None
  end.

(** Calls that leave the file, in program order. *)
Inductive event : Type :=
| EvWatchChange (file : string)
| EvOnChange (changes : list string) (duration : nat)
| EvStat (file : string)
| EvReadFile (file : string)
| EvTransform (code id : string)
| EvTransformImports (code id : string)
| EvCreateContainer
| EvLoad (file : string)
| EvContainerTransform (code : option string) (id : string)
| EvModularizeCss (code id : string)
| EvGetWmrClient
| EvMkdir (dir : string)
| EvWriteFile (file data : string)
| EvSetHeader (name value : string)
| EvWriteHead (status content_length : nat) (timing_name : string) (timing_dur : Z)
| EvEnd (body : string)
| EvNext (e : option thrown)
| EvOnError (e : thrown).

(** An [event] that writes the response. *)
Definition writes_response (e : event) : bool :=
  match e with
  | EvWriteHead _ _ _ _ | EvEnd _ => true
  | _ => false
  end.

(** A call to the file system, the transpiler or a compiler. *)
Definition is_external (e : event) : bool :=
  match e with
  | EvStat _ | EvReadFile _ | EvTransform _ _ | EvTransformImports _ _
  | EvCreateContainer | EvLoad _ | EvContainerTransform _ _
  | EvModularizeCss _ _ | EvGetWmrClient | EvMkdir _ | EvWriteFile _ _ => true
  | _ => false
  end.

(** *** Collaborators

    Everything the file imports or is handed.  [World] is their hidden
    state (the disk, the plugin container, the clock); a call may change
    it and may throw.  [onChange], [onError], [next], the response
    methods and [NonRollup.watchChange] are taken to return normally. *)
Class Collaborators : Type := {
  World : Type;
  path_sep : ascii;
  path_resolve : string → string → string;
  path_dirname : string → string;
  posix_normalize : string → string;
  posix_join : string → string → string;
  posix_relative : string → string → string;
  mime_getType : string → option string;
  Date_now : World → Z;
  fs_stat_isFile : string → World → result bool * World;
  fs_readFile : string → World → result string * World;
  fs_mkdir : string → World → result unit * World;
  fs_writeFile : string → string → World → result unit * World;
  NonRollup_watchChange : string → World → World;
  NonRollup_transform : string → string → World → result string * World;
  (** [transformImports(code, id, { resolveId })] *)
  transformImports :
    string → string → (string → option string) → World → result string * World;
  (** the per-request container of [cssModule]: each call also yields the
      files it handed to the [writeFile] option meanwhile *)
  container_load :
    string → World → (list (string * string) * result load_result) * World;
  container_transform :
    option string → string → World → (list (string * string) * result string) * World;
  modularizeCss : string → string → World → result string * World;
  getWmrClient : World → result presult * World
}.

Section Middleware.
Context `{Collaborators}.

(** *** State *)

(** The part of [writeCacheFile] after its first [await]: an optional
    [mkdir], then the [writeFile]. *)
Record mirror : Type := {
  m_mkdir : option string;
  m_file : string;
  m_data : string
}.

Record state : Type := {
  WRITE_CACHE : gmap string string;
  (** the [Set] of the watcher, in insertion order *)
  pendingChanges : list string;
  (** the milliseconds left on each [setTimeout(flushChanges, _)] *)
  timers : list nat;
  (** the [writeCacheFile] calls nobody awaits *)
  background : list mirror;
  world : World;
  log : list event
}.

Definition with_cache (f : gmap string string → gmap string string) (st : state) : state :=
  {| WRITE_CACHE := f (WRITE_CACHE st); pendingChanges := pendingChanges st;
     timers := timers st; background := background st;
     world := world st; log := log st |}.

Definition with_pending (f : list string → list string) (st : state) : state :=
  {| WRITE_CACHE := WRITE_CACHE st; pendingChanges := f (pendingChanges st);
     timers := timers st; background := background st;
     world := world st; log := log st |}.

Definition with_timers (f : list nat → list nat) (st : state) : state :=
  {| WRITE_CACHE := WRITE_CACHE st; pendingChanges := pendingChanges st;
     timers := f (timers st); background := background st;
     world := world st; log := log st |}.

Definition with_background (f : list mirror → list mirror) (st : state) : state :=
  {| WRITE_CACHE := WRITE_CACHE st; pendingChanges := pendingChanges st;
     timers := timers st; background := f (background st);
     world := world st; log := log st |}.

Definition with_world (w : World) (st : state) : state :=
  {| WRITE_CACHE := WRITE_CACHE st; pendingChanges := pendingChanges st;
     timers := timers st; background := background st;
     world := w; log := log st |}.

Definition record (e : event) (st : state) : state :=
  {| WRITE_CACHE := WRITE_CACHE st; pendingChanges := pendingChanges st;
     timers := timers st; background := background st;
     world := world st; log := log st ++ [e] |}.

Definition init (w : World) : state :=
  {| WRITE_CACHE := ∅; pendingChanges := []; timers := []; background := [];
     world := w; log := [] |}.

(** *** The monad of code that may throw *)

Definition M (A : Type) : Type := state → result A * state.

Definition ret {A} (a : A) : M A := fun st => (Ok a, st).
Definition throw {A} (e : thrown) : M A := fun st => (Throw e, st).
Definition bind {A B} (m : M A) (k : A → M B) : M B :=
  fun st =>
    match m st with
    | (Ok a, st') => k a st'
    | (Throw e, st') => (Throw e, st')
    end.
Definition try_catch {A} (m : M A) (h : thrown → M A) : M A :=
  fun st =>
    match m st with
    | (Ok a, st') => (Ok a, st')
    | (Throw e, st') => h e st'
    end.

(** a call that cannot throw and returns nothing of interest *)
Definition emit (e : event) : M unit := fun st => (Ok tt, record e st).

(** a call to a collaborator *)
Definition call {A} (e : event) (f : World → result A * World) : M A :=
  fun st =>
    let '(r, w) := f (world st) in
    (r, with_world w (record e st)).

Notation "x <- m ;; k" := (bind m (fun x => k))
  (at level 100, m at next level, right associativity).
Notation "m1 ;;; m2" := (bind m1 (fun _ => m2))
  (at level 100, right associativity).

(** *** The cache *)

(** [WRITE_CACHE.has(id)] *)
Definition cache_has (id : string) : M bool :=
  fun st => (Ok (bool_decide (is_Some (WRITE_CACHE st !! id))), st).

(** [WRITE_CACHE.get(id)] *)
Definition cache_get (id : string) : M (option string) :=
  fun st => (Ok (WRITE_CACHE st !! id), st).

(** a [return WRITE_CACHE.get(id)] *)
Definition return_cached (id : string) : M presult :=
  v <- cache_get id ;;
  ret (match v with Some body => PContent body | None => PNullish end).

(** [writeCacheFile(rootDir, fileName, data)] up to its first [await]:
    the entry is set, and what follows is left in [background]. *)
Definition writeCacheFile (rootDir fileName data : string) : M unit :=
  fun st =>
    let st := with_cache (insert fileName data) st in
    let filePath := path_resolve rootDir fileName in
    let m := {| m_mkdir := if decide (path_dirname filePath ≠ rootDir)
                           then Some (path_dirname filePath) else None;
                m_file := filePath;
                m_data := data |} in
    (Ok tt, with_background (fun b => b ++ [m]) st).

(** The rest of a [writeCacheFile] call. *)
Definition run_mirror (m : mirror) : M unit :=
  match m_mkdir m with
  | Some dir => call (EvMkdir dir) (fs_mkdir dir)
  | None => ret tt
  end ;;;
  call (EvWriteFile (m_file m) (m_data m)) (fs_writeFile (m_file m) (m_data m)).

(** The event loop runs the oldest pending mirror write; whether its
    promise resolves or rejects, nobody is told. *)
Definition settle (st : state) : state :=
  match background st with
  | [] => st
  | m :: rest => snd (run_mirror m (with_background (fun _ => rest) st))
  end.

(** *** The pipelines *)

Record ctx : Type := {
  c_id : string;
  c_file : string;
  c_path : string;
  c_cwd : string;
  c_out : string
}.

(** [resolveId] of [TRANSFORMS.js] *)
Definition resolveId (spec : string) : string :=
  if String.eqb spec "wmr" then "/_wmr.js"
  else
    let spec := if Str.endsWith spec ".css" then spec +:+ ".js" else spec in
    let spec := if negb (test_start re_rel_or_abs spec) then "/@npm/" +:+ spec else spec in
    spec.

(** [resolveId] of [TRANSFORMS.cssModule]: [undefined] unless [wmr] *)
Definition resolveId_cssModule (spec : string) : option string :=
  if String.eqb spec "wmr" then Some "/_wmr.js" else None.

Definition TRANSFORMS_js (c : ctx) : M presult :=
  emit (EvSetHeader "content-type" "application/javascript") ;;;
  hit <- cache_has (c_id c) ;;
  if hit then return_cached (c_id c)
  else
    let src := path_resolve (c_cwd c) (c_file c) in
    code <- call (EvReadFile src) (fs_readFile src) ;;
    code <- call (EvTransform code (c_id c)) (NonRollup_transform code (c_id c)) ;;
    code <- call (EvTransformImports code (c_id c))
                 (transformImports code (c_id c) (fun spec => Some (resolveId spec))) ;;
    writeCacheFile (c_out c) (c_id c) code ;;;
    ret (PContent code).

(** the [writeFile] option of the container: [writeCacheFile] each file *)
Fixpoint write_files (out : string) (files : list (string * string)) : M unit :=
  match files with
  | [] => ret tt
  | (filename, source) :: rest =>
      writeCacheFile out filename source ;;; write_files out rest
  end.

(** a call to the per-request container *)
Definition call_container {A} (e : event) (out : string)
    (f : World → (list (string * string) * result A) * World) : M A :=
  fun st =>
    let '((files, r), w) := f (world st) in
    let st := with_world w (record e st) in
    (r, snd (write_files out files st)).

Definition TRANSFORMS_cssModule (c : ctx) : M presult :=
  emit (EvSetHeader "content-type" "application/javascript") ;;;
  hit <- cache_has (c_id c) ;;
  if hit then return_cached (c_id c)
  else
    let file := remove_end re_js (c_file c) in
    emit EvCreateContainer ;;;
    result <- call_container (EvLoad file) (c_out c) (container_load file) ;;
    let code := load_code result in
    code <- call_container (EvContainerTransform code (c_id c)) (c_out c)
                           (container_transform code (c_id c)) ;;
    code <- call (EvTransformImports code (c_id c))
                 (transformImports code (c_id c) resolveId_cssModule) ;;
    writeCacheFile (c_out c) (c_id c) code ;;;
    ret (PContent code).

Definition TRANSFORMS_css (c : ctx) : M presult :=
  if negb (test_end re_module_css (c_path c)) then throw ThrowNull
  else
    hit <- cache_has (c_id c) ;;
    if hit then return_cached (c_id c)
    else
      let src := path_resolve (c_cwd c) (c_file c) in
      code <- call (EvReadFile src) (fs_readFile src) ;;
      code <- call (EvModularizeCss code (c_id c)) (modularizeCss code (c_id c)) ;;
      writeCacheFile (c_out c) (c_id c) code ;;;
      ret (PContent code).

Definition TRANSFORMS_generic : M presult := ret PFalse.

(** *** Transform dispatch *)

Inductive pipeline : Type :=
| RuntimeClient
| CssModule
| Js
| Css
| Generic.

Definition select (path file : string) : pipeline :=
  if String.eqb path "/_wmr.js" then RuntimeClient
  else if test_end re_css_js file then CssModule
  else if test_end re_module_ext file then Js
  else if test_end re_style_ext file then Css
  else Generic.

Definition run_pipeline (k : pipeline) (c : ctx) : M presult :=
  match k with
  | RuntimeClient => call EvGetWmrClient getWmrClient
  | CssModule => TRANSFORMS_cssModule c
  | Js => TRANSFORMS_js c
  | Css => TRANSFORMS_css c
  | Generic => TRANSFORMS_generic
  end.

(** [transform.name] *)
Definition pipeline_name (k : pipeline) : string :=
  match k with
  | RuntimeClient => "bound getWmrClient"
  | CssModule => "cssModule"
  | Js => "js"
  | Css => "css"
  | Generic => "generic"
  end.

(** *** The request handler *)

Record request : Type := {
  req_path : string;
  req_referer : option string
}.

(** [posix.relative(cwd, file).replace(/^\.\//, '')] *)
Definition module_id (cwd file : string) : string :=
  remove_start_lit "./" (posix_relative cwd file).

Definition isCached (cwd file : string) : M bool := cache_has (module_id cwd file).

(** [fs.stat(file).then(s => s.isFile()).catch(() => false)] *)
Definition isFile (file : string) : M bool :=
  try_catch (call (EvStat file) (fs_stat_isFile file)) (fun _ => ret false).

(** The extension heuristic of lines 102-111; yields the final [file]. *)
Definition resolve_extension (cwd : string) (req : request) (path file : string) : M string :=
  if test_end re_script_ext (default EmptyString (req_referer req))
     && negb (test_end re_long_ext path)
  then
    c1 <- isCached cwd (file +:+ ".tsx") ;;
    if c1 then ret (file +:+ ".tsx")
    else
      c2 <- isCached cwd (file +:+ ".ts") ;;
      if c2 then ret (file +:+ ".ts")
      else
        f1 <- isFile (file +:+ ".tsx") ;;
        if f1 then ret (file +:+ ".tsx")
        else
          f2 <- isFile (file +:+ ".ts") ;;
          if f2 then ret (file +:+ ".ts") else ret file
  else ret file.

(** The [try]/[catch] around the transform. *)
Definition respond (name : string) (transform : M presult) : M unit :=
  try_catch
    (fun st =>
       let start := Date_now (world st) in
       (result <- transform ;;
        match result with
        | PFalse => emit (EvNext None)
        | PNullish => ret tt
        | PContent body =>
            fun st' =>
              let time := (Date_now (world st') - start)%Z in
              (emit (EvWriteHead 200 (String.length body) name time) ;;;
               emit (EvEnd body)) st'
        end) st)
    (fun e =>
       if is_nullish e then emit (EvNext None)
       else emit (EvOnError e) ;;; emit (EvNext (Some e))).

Definition handler (cwd out : string) (req : request) : M unit :=
  let path := posix_normalize (req_path req) in
  if Str.startsWith path "/@npm/" then emit (EvNext None)
  else
    let file := posix_join cwd path in
    file <- resolve_extension cwd req path file ;;
    let id := module_id cwd file in
    match mime_getType file with
    | Some type => emit (EvSetHeader "content-type" type)
    | None => ret tt
    end ;;;
    let c := {| c_id := id; c_file := file; c_path := path; c_cwd := cwd; c_out := out |} in
    let k := select path file in
    respond (pipeline_name k) (run_pipeline k c).

(** *** The watcher *)

(** [Set.prototype.add] *)
Definition set_add (x : string) (s : list string) : list string :=
  if decide (x ∈ s) then s else s ++ [x].

Definition flushChanges (st : state) : state :=
  with_pending (fun _ => []) (record (EvOnChange (pendingChanges st) 0) st).

(** [filename.split(sep).join(posix.sep)] *)
Definition to_posix (filename : string) : string :=
  Str.join "/" (Str.split path_sep filename).

(** The listener of the watcher's [change] event. *)
Definition on_change (cwd filename : string) (st : state) : state :=
  let abs := path_resolve cwd filename in
  let st := with_world (NonRollup_watchChange abs (world st)) (record (EvWatchChange abs) st) in
  let filename := to_posix filename in
  let st := if Nat.eqb (List.length (pendingChanges st)) 0
            then with_timers (fun t => t ++ [60]) st else st in
  let st := with_pending (set_add ("/" +:+ filename)) st in
  let st := with_cache (delete filename) st in
  if test_end re_module_css filename
  then with_cache (delete (filename +:+ ".js")) st
  else st.

(** One millisecond passes: the timers that run out call [flushChanges]. *)
Definition tick (st : state) : state :=
  let due := filter (fun n => n ≤ 1) (timers st) in
  let st := with_timers (fun t => Nat.pred <$> filter (fun n => 1 < n) t) st in
  foldl (fun s _ => flushChanges s) st due.

(** What happens to the watcher, in time order. *)
Inductive wevent : Type :=
| Change (filename : string)
| Tick.

Definition wstep (cwd : string) (st : state) (e : wevent) : state :=
  match e with
  | Change filename => on_change cwd filename st
  | Tick => tick st
  end.

Definition wrun (cwd : string) (evs : list wevent) (st : state) : state :=
  foldl (wstep cwd) st evs.

(** The [changes] of the notifications sent so far. *)
Definition notifications (st : state) : list (list string) :=
  omap (fun e => match e with EvOnChange changes _ => Some changes | _ => None end) (log st).

End Middleware.

Notation "x <- m ;; k" := (bind m (fun x => k))
  (at level 100, m at next level, right associativity).
Notation "m1 ;;; m2" := (bind m1 (fun _ => m2))
  (at level 100, right associativity).

End Wmr.

(* ================================================================== *)
(** ** A small project to run the middleware on

    Collaborators simple enough to compute with: POSIX paths that are
    already normalized, a read-only disk of four files under [/proj], a
    transpiler whose output depends on how many calls were made before (so
    that running it twice does not give the same bytes), and an output
    directory that cannot be written. *)

Module Demo.
Import Regex Wmr.

Definition disk : list (string * string) :=
  [ ("/proj/src/app.tsx", "export const App = () => null")
  ; ("/proj/src/app.ts", "export const n: number = 1")
  ; ("/proj/src/index.js", "import pad from 'left-pad'")
  ; ("/proj/src/style.module.css", ".title { color: red }") ].

Fixpoint assoc (k : string) (l : list (string * string)) : option string :=
  match l with
  | [] => None
  | (k', v) :: rest => if String.eqb k k' then Some v else assoc k rest
  end.

Definition read (file : string) : result string :=
  match assoc file disk with
  | Some data => Ok data
  | None => Throw (ThrowValue "ENOENT")
  end.

Definition stat (file : string) : result bool :=
  match assoc file disk with
  | Some _ => Ok true
  | None => Throw (ThrowValue "ENOENT")
  end.

Definition drop_prefix (p s : string) : string :=
  if String.prefix p s
  then String.substring (String.length p) (String.length s - String.length p) s
  else s.

(** [/\/[^/]*$/] *)
Definition re_last_segment : re :=
  Cat (Chr "/") (Star (Cls (fun c => negb (Ascii.eqb c "/")))).

Definition stamp (w : nat) : string :=
  "/*" +:+ DecimalString.NilZero.string_of_uint (Nat.to_uint w) +:+ "*/".

#[local] Instance collaborators : Collaborators := {|
  World := nat;
  path_sep := "/"%char;
  path_resolve := fun from to => if String.prefix "/" to then to else from +:+ "/" +:+ to;
  path_dirname := remove_end re_last_segment;
  posix_normalize := fun p => p;
  posix_join := fun a b => a +:+ b;
  posix_relative := fun from to => drop_prefix (from +:+ "/") to;
  mime_getType := fun file =>
    if test_end (Lit ".css") file then Some "text/css"
    else if test_end re_module_ext file then Some "application/javascript"
    else None;
  Date_now := Z.of_nat;
  fs_stat_isFile := fun file w => (stat file, S w);
  fs_readFile := fun file w => (read file, S w);
  fs_mkdir := fun _ w => (Ok tt, S w);
  fs_writeFile := fun _ _ w => (Throw (ThrowValue "EACCES"), S w);
  NonRollup_watchChange := fun _ w => S w;
  NonRollup_transform := fun code _ w => (Ok (stamp w +:+ code), S w);
  transformImports := fun code _ _ w => (Ok code, S w);
  container_load := fun file w =>
    (([(drop_prefix "/proj/" file, ".title_x1 { color: red }")],
      Ok (LoadObject (Some "export default { title: 'title_x1' }"))), S w);
  container_transform := fun code _ w =>
    (([], Ok (stamp w +:+ default EmptyString code)), S w);
  modularizeCss := fun code _ w => (Ok (stamp w +:+ code), S w);
  getWmrClient := fun w => (Ok (PContent "/* client */"), S w)
|}.

(** The same project on a platform whose [path.sep] is the backslash: the
    watcher then reports names such as [src\style.module.css]. *)
Definition win32 : Collaborators := {|
  World := nat;
  path_sep := "\"%char;
  path_resolve := path_resolve (Collaborators := collaborators);
  path_dirname := path_dirname (Collaborators := collaborators);
  posix_normalize := posix_normalize (Collaborators := collaborators);
  posix_join := posix_join (Collaborators := collaborators);
  posix_relative := posix_relative (Collaborators := collaborators);
  mime_getType := mime_getType (Collaborators := collaborators);
  Date_now := Date_now (Collaborators := collaborators);
  fs_stat_isFile := fs_stat_isFile (Collaborators := collaborators);
  fs_readFile := fs_readFile (Collaborators := collaborators);
  fs_mkdir := fs_mkdir (Collaborators := collaborators);
  fs_writeFile := fs_writeFile (Collaborators := collaborators);
  NonRollup_watchChange := NonRollup_watchChange (Collaborators := collaborators);
  NonRollup_transform := NonRollup_transform (Collaborators := collaborators);
  transformImports := transformImports (Collaborators := collaborators);
  container_load := container_load (Collaborators := collaborators);
  container_transform := container_transform (Collaborators := collaborators);
  modularizeCss := modularizeCss (Collaborators := collaborators);
  getWmrClient := getWmrClient (Collaborators := collaborators)
|}.

Definition cwd : string := "/proj".
Definition out : string := ".dist".

Definition start : state := init 0.

(** the state after a request *)
Definition after (req : request) (st : state) : state := snd (handler cwd out req st).

Definition get (path : string) : request := {| req_path := path; req_referer := None |}.
Definition get_from (referer path : string) : request :=
  {| req_path := path; req_referer := Some referer |}.

(** the context of a request for [/src/index.js] *)
Definition index_js : ctx :=
  {| c_id := "src/index.js"; c_file := "/proj/src/index.js"; c_path := "/src/index.js";
     c_cwd := cwd; c_out := out |}.

(** the context of a request for a module that is not on the disk *)
Definition missing_js : ctx :=
  {| c_id := "src/missing.js"; c_file := "/proj/src/missing.js";
     c_path := "/src/missing.js"; c_cwd := cwd; c_out := out |}.

(** the context of a request for a plain stylesheet *)
Definition theme_css : ctx :=
  {| c_id := "src/theme.css"; c_file := "/proj/src/theme.css";
     c_path := "/src/theme.css"; c_cwd := cwd; c_out := out |}.

End Demo.

(* ================================================================== *)
(** ** The words of the specification

    Predicates that say in terms of prefixes and suffixes what the
    specification says in prose; the theorems relate them to the code. *)

Module Spec.
Import Str.

(** the "recognized module extensions" *)
Definition module_exts : list string := [".mjs"; ".cjs"; ".ts"; ".tsx"; ".js"; ".jsx"].
(** the "recognized stylesheet extensions (plain or preprocessed)" *)
Definition style_exts : list string := [".css"; ".scss"; ".sass"].
(** the extensions of a referer that switch the extension heuristic on *)
Definition script_exts : list string := [".ts"; ".tsx"; ".js"; ".jsx"].

(** [s] ends in one of [exts] *)
Definition has_ext (exts : list string) (s : string) : Prop :=
  ∃ e, e ∈ exts ∧ ends_with s e.

(** "a specifier that is a relative or absolute path": a leading [./],
    [../] or [/] *)
Definition relative_or_absolute (spec : string) : Prop :=
  starts_with spec "./" ∨ starts_with spec "../" ∨ starts_with spec "/".

(** "a [.module.] infix before its stylesheet extension" *)
Definition module_infix_before_ext (path : string) : Prop :=
  ∃ e, e ∈ style_exts ∧ ends_with path (".module" +:+ e).

(** "the proxy suffix appended to a stylesheet extension" *)
Definition proxy_suffix : string := ".css.js".

(** "trying, in order ...; the first match wins, otherwise the path is
    used unmodified" *)
Fixpoint first_match (candidates : list (bool * string)) (unmodified : string) : string :=
  match candidates with
  | [] => unmodified
  | (matched, file) :: rest => if matched then file else first_match rest unmodified
  end.

(** a run of word characters *)
Fixpoint all_word (w : string) : bool :=
  match w with
  | EmptyString => true
  | String a w' => Regex.is_word a && all_word w'
  end.

(** "a multi-character extension": a dot and two or more word characters
    at the end *)
Definition has_long_ext (path : string) : Prop :=
  ∃ w, ends_with path ("." +:+ w) ∧ 2 ≤ String.length w ∧ all_word w = true.

(** "an on-disk file at": [fs.stat] succeeds and [isFile()] holds *)
Definition on_disk `{Wmr.Collaborators} (file : string) (w : Wmr.World) : bool :=
  match fst (Wmr.fs_stat_isFile file w) with
  | Wmr.Ok true => true
  | _ => false
  end.

(** the header both script pipelines set first *)
Definition js_header : Wmr.event := Wmr.EvSetHeader "content-type" "application/javascript".

(** The pipelines that keep their results in [WRITE_CACHE]. *)
Definition keeps_results (k : Wmr.pipeline) : bool :=
  match k with
  | Wmr.Js | Wmr.CssModule | Wmr.Css => true
  | Wmr.RuntimeClient | Wmr.Generic => false
  end.

(** The stylesheet pipeline looks at the cache only behind its guard. *)
Definition past_guard (k : Wmr.pipeline) (c : Wmr.ctx) : Prop :=
  k = Wmr.Css → ends_with (Wmr.c_path c) ".module.css".

(** "a [.module.] infix": the word occurs somewhere in the path *)
Definition has_module_infix (path : string) : Prop :=
  ∃ p q, path = p +:+ ".module." +:+ q.

(** the disk I/O of the mirror write *)
Definition is_mirror_io (e : Wmr.event) : bool :=
  match e with
  | Wmr.EvMkdir _ | Wmr.EvWriteFile _ _ => true
  | _ => false
  end.

(** the file names of the changes among watcher events, in order *)
Definition changed (evs : list Wmr.wevent) : list string :=
  omap (fun e => match e with Wmr.Change f => Some f | Wmr.Tick => None end) evs.

(** the milliseconds that pass during watcher events *)
Definition ticks (evs : list Wmr.wevent) : nat :=
  List.length (List.filter (fun e => match e with Wmr.Tick => true | _ => false end) evs).

(** the watcher between two flushes: nothing pending and no timer, or
    something pending and exactly one timer, with at most 60ms to go *)
Definition armed `{Wmr.Collaborators} (st : Wmr.state) : Prop :=
  (Wmr.pendingChanges st = [] ∧ Wmr.timers st = []) ∨
  (Wmr.pendingChanges st ≠ [] ∧ ∃ n, Wmr.timers st = [n] ∧ 1 ≤ n ≤ 60).

(** [Set.prototype.add], once per path *)
Definition add_all (s : list string) (paths : list string) : list string :=
  foldl (fun s p => Wmr.set_add p s) s paths.

(** the "web-relative path" of a changed file *)
Definition web_path `{Wmr.Collaborators} (filename : string) : string :=
  "/" +:+ Wmr.to_posix filename.

(** an event that ends the handling of a request: the body is sent, or
    the next handler is called *)
Definition is_terminal (e : Wmr.event) : bool :=
  match e with
  | Wmr.EvEnd _ | Wmr.EvNext _ => true
  | _ => false
  end.

(** an [fs.stat] *)
Definition is_stat (e : Wmr.event) : bool :=
  match e with
  | Wmr.EvStat _ => true
  | _ => false
  end.

(** what [str.split(sep).join('/')] does to one character *)
Definition slash_for (sep c : ascii) : ascii := if Ascii.eqb c sep then "/"%char else c.

(** the cache after a list of [(name, data)] writes, in order *)
Definition put_all (files : list (string * string)) (cache : gmap string string) :
    gmap string string :=
  foldl (fun m fd => <[fd.1 := fd.2]> m) cache files.

(** Code that, run from any state, only appends events satisfying [P] to
    the log. *)
Definition emits_only `{Wmr.Collaborators} {A} (P : Wmr.event → bool) (m : Wmr.M A) : Prop :=
  ∀ st, ∃ l, Wmr.log (snd (m st)) = Wmr.log st ++ l ∧ List.forallb P l = true.

(** Code that leaves the cache and the pending mirror writes as they are. *)
Definition keeps_cache `{Wmr.Collaborators} {A} (m : Wmr.M A) : Prop :=
  ∀ st, Wmr.WRITE_CACHE (snd (m st)) = Wmr.WRITE_CACHE st ∧
        Wmr.background (snd (m st)) = Wmr.background st.

(** what a pipeline may do: set a header, read a file, call the
    transpiler, a compiler or the client generator *)
Definition pipeline_event (e : Wmr.event) : bool :=
  match e with
  | Wmr.EvSetHeader _ _ | Wmr.EvReadFile _ | Wmr.EvTransform _ _
  | Wmr.EvTransformImports _ _ | Wmr.EvCreateContainer | Wmr.EvLoad _
  | Wmr.EvContainerTransform _ _ | Wmr.EvModularizeCss _ _
  | Wmr.EvGetWmrClient => true
  | _ => false
  end.

(** the part of the state that belongs to the watcher *)
Definition watcher_part `{Wmr.Collaborators} (st : Wmr.state) : list string * list nat :=
  (Wmr.pendingChanges st, Wmr.timers st).

(** Code that leaves the watcher's pending set and timers as they are. *)
Definition keeps_watcher `{Wmr.Collaborators} {A} (m : Wmr.M A) : Prop :=
  ∀ st, watcher_part (snd (m st)) = watcher_part st.

(** the names the watcher's first [ignored] pattern looks for *)
Definition ignored_names : list string := ["node_modules"; ".git"; ".DS_Store"].

(** the segments of a path, cut at every [/] and every backslash *)
Fixpoint segments (s : string) : list string :=
  match s with
  | EmptyString => [EmptyString]
  | String c s' =>
      if Wmr.is_sep c then EmptyString :: segments s'
      else match segments s' with
           | h :: t => String c h :: t
           | [] => [String c EmptyString]
           end
  end.

(** no separator in a name *)
Fixpoint sep_free (s : string) : bool :=
  match s with
  | EmptyString => true
  | String c s' => negb (Wmr.is_sep c) && sep_free s'
  end.

(** the module id of a file the watcher names: the name with every
    [path.sep] turned into a forward slash *)
Definition watched_id `{Wmr.Collaborators} (filename : string) : string :=
  string_of_list_ascii (slash_for Wmr.path_sep <$> list_ascii_of_string filename).

End Spec.

(* ================================================================== *)
(** ** Facts about strings *)

Module StrFacts.
Import Str.

Lemma app_nil_l (s : string) : EmptyString +:+ s = s.
Proof. reflexivity. Qed.

Lemma app_cons (a : ascii) (s t : string) : String a s +:+ t = String a (s +:+ t).
Proof. reflexivity. Qed.

Lemma app_nil_r (s : string) : s +:+ EmptyString = s.
Proof. induction s as [|a s IH]; [done|]. by rewrite app_cons, IH. Qed.

Lemma app_assoc (s t u : string) : (s +:+ t) +:+ u = s +:+ (t +:+ u).
Proof. induction s as [|a s IH]; [done|]. by rewrite !app_cons, IH. Qed.

Lemma app_eq_nil (s t : string) :
  s +:+ t = EmptyString → s = EmptyString ∧ t = EmptyString.
Proof. destruct s; [rewrite app_nil_l; done | rewrite app_cons; done]. Qed.

Lemma app_eq_cons (s t u : string) (a : ascii) :
  s +:+ t = String a u →
  (s = EmptyString ∧ t = String a u) ∨ (∃ s', s = String a s' ∧ u = s' +:+ t).
Proof.
  destruct s as [|b s]; [left; done|].
  rewrite app_cons. intros [= -> <-]. right. eauto.
Qed.

Lemma length_app (s t : string) :
  String.length (s +:+ t) = String.length s + String.length t.
Proof. induction s as [|a s IH]; [done|]. rewrite app_cons. simpl. by rewrite IH. Qed.

Lemma endsWith_spec (s t : string) : endsWith s t = true ↔ ends_with s t.
Proof.
  unfold ends_with. induction s as [|a s IH]; cbn [endsWith].
  - destruct (String.eqb_spec EmptyString t) as [<- | Hne]; cbn [orb].
    + split; [by exists EmptyString | done].
    + split; [done | intros [p Hp]; symmetry in Hp].
      by apply app_eq_nil in Hp as [_ ->].
  - destruct (String.eqb_spec (String a s) t) as [<- | Hne]; cbn [orb].
    + split; [by exists EmptyString | done].
    + rewrite IH. split.
      * intros [p ->]. by exists (String a p).
      * intros [p Hp]. symmetry in Hp.
        apply app_eq_cons in Hp as [[-> ->] | [p' [-> ->]]]; [done | eauto].
Qed.


Lemma ends_with_refl (s : string) : ends_with s s.
Proof. by exists EmptyString. Qed.

Lemma ends_with_app (p s t : string) : ends_with s t → ends_with (p +:+ s) t.
Proof. intros [q ->]. exists (p +:+ q). by rewrite app_assoc. Qed.

(** With the separator of win32, the watcher's file name becomes a
    forward-slash path; with the POSIX separator it is left as it is. *)
Example split_join_win32 : join "/" (split "\" "src\pages\home.tsx") = "src/pages/home.tsx".
Proof. reflexivity. Qed.

Example split_join_posix : join "/" (split "/" "src/pages/home.tsx") = "src/pages/home.tsx".
Proof. reflexivity. Qed.

End StrFacts.

(* ================================================================== *)
(** ** Facts about the regular expressions *)

Module RegexFacts.
Import Str StrFacts Regex.

Lemma nullable_lang (r : re) : nullable r = true ↔ lang r EmptyString.
Proof.
  split.
  - induction r; simpl; intros Hn; try done.
    + constructor.
    + apply andb_true_iff in Hn as [H1 H2].
      change EmptyString with (EmptyString +:+ EmptyString). constructor; auto.
    + apply orb_true_iff in Hn as [H1 | H2]; [apply lang_alt_l | apply lang_alt_r]; auto.
    + constructor.
  - induction r; simpl; intros Hl; inversion Hl; subst; try done.
    + match goal with E : _ +:+ _ = EmptyString |- _ => apply app_eq_nil in E as [-> ->] end.
      apply andb_true_iff; auto.
    + apply orb_true_iff; auto.
    + apply orb_true_iff; auto.
Qed.

Lemma star_uncons (r : re) (a : ascii) (s : string) :
  lang (Star r) (String a s) →
  ∃ s1 s2, s = s1 +:+ s2 ∧ lang r (String a s1) ∧ lang (Star r) s2.
Proof.
  intros Hl. remember (Star r) as r' eqn:Er. remember (String a s) as w eqn:Ew.
  revert s Ew. induction Hl as [| | | | | |r0 s1 s2 H1 _ H2 IH2]; intros u Ew; try done.
  injection Er as ->.
  apply app_eq_cons in Ew as [[-> ->] | [s' [-> ->]]].
  - by apply IH2.
  - eauto.
Qed.

Lemma deriv_lang (a : ascii) (r : re) (s : string) :
  lang (deriv a r) s ↔ lang r (String a s).
Proof.
  revert s. induction r as [| |p|r1 IH1 r2 IH2|r1 IH1 r2 IH2|r1 IH1]; intros s; simpl.
  - split; intros Hl; inversion Hl.
  - split; intros Hl; inversion Hl.
  - destruct (p a) eqn:Hp; split; intros Hl; inversion Hl; subst.
    + by constructor.
    + constructor.
    + congruence.
  - split.
    + destruct (nullable r1) eqn:Hn; intros Hl; inversion Hl; subst.
      * match goal with Hc : lang (Cat _ _) _ |- _ => inversion Hc; subst end.
        rewrite <- app_cons. constructor; [by apply IH1 | done].
      * rewrite <- (app_nil_l (String a s)).
        constructor; [by apply nullable_lang | by apply IH2].
      * rewrite <- app_cons. constructor; [by apply IH1 | done].
    + intros Hl. inversion Hl as [| |? ? s1 s2 H1 H2| | | |]; subst.
      match goal with E : _ +:+ _ = String _ _ |- _ =>
        apply app_eq_cons in E as [[-> ->] | [s' [-> ->]]] end.
      * apply nullable_lang in H1. rewrite H1. apply lang_alt_r. by apply IH2.
      * assert (lang (Cat (deriv a r1) r2) (s' +:+ s2)) by (constructor; [by apply IH1 | done]).
        destruct (nullable r1); [by apply lang_alt_l | done].
  - split; intros Hl; inversion Hl; subst.
    + apply lang_alt_l. by apply IH1.
    + apply lang_alt_r. by apply IH2.
    + apply lang_alt_l. by apply IH1.
    + apply lang_alt_r. by apply IH2.
  - split.
    + intros Hl. inversion Hl; subst. rewrite <- app_cons.
      constructor; [by apply IH1 | done].
    + intros Hl. apply star_uncons in Hl as (s1 & s2 & -> & H1 & H2).
      constructor; [by apply IH1 | done].
Qed.

Lemma matches_lang (r : re) (s : string) : matches r s = true ↔ lang r s.
Proof.
  revert r. induction s as [|a s IH]; intros r; simpl.
  - apply nullable_lang.
  - rewrite IH. apply deriv_lang.
Qed.

Lemma test_end_spec (X : re) (s : string) :
  test_end X s = true ↔ ∃ p t, s = p +:+ t ∧ lang X t.
Proof.
  induction s as [|a s IH]; simpl.
  - rewrite orb_false_r. change (nullable X) with (matches X EmptyString).
    rewrite matches_lang. split.
    + intros Hl. by exists EmptyString, EmptyString.
    + intros (p & t & E & Hl). symmetry in E. by apply app_eq_nil in E as [_ ->].
  - rewrite orb_true_iff, IH. change (matches (deriv a X) s) with (matches X (String a s)).
    rewrite matches_lang. split.
    + intros [Hl | (p & t & -> & Hl)].
      * by exists EmptyString, (String a s).
      * by exists (String a p), t.
    + intros (p & t & E & Hl). symmetry in E.
      apply app_eq_cons in E as [[-> ->] | [p' [-> ->]]]; eauto.
Qed.

Lemma matches_prefix_spec (r : re) (s : string) :
  matches_prefix r s = true ↔ ∃ p t, s = p +:+ t ∧ lang r p.
Proof.
  revert r. induction s as [|a s IH]; intros r; simpl.
  - rewrite orb_false_r, nullable_lang. split.
    + intros Hl. by exists EmptyString, EmptyString.
    + intros (p & t & E & Hl). symmetry in E. by apply app_eq_nil in E as [-> _].
  - rewrite orb_true_iff, IH, nullable_lang. split.
    + intros [Hl | (p & t & -> & Hl)].
      * by exists EmptyString, (String a s).
      * exists (String a p), t. split; [done | by apply deriv_lang].
    + intros (p & t & E & Hl). symmetry in E.
      apply app_eq_cons in E as [[-> ->] | [p' [-> ->]]]; [by left|].
      right. exists p', t. split; [done | by apply deriv_lang].
Qed.

Lemma lang_Chr (c : ascii) (s : string) : lang (Chr c) s ↔ s = String c EmptyString.
Proof.
  split.
  - intros Hl. inversion Hl as [|? a Hp| | | | |]; subst.
    by apply Ascii.eqb_eq in Hp as ->.
  - intros ->. constructor. apply Ascii.eqb_refl.
Qed.

Lemma lang_Lit (w s : string) : lang (Lit w) s ↔ s = w.
Proof.
  revert s. induction w as [|a w IH]; intros s; simpl.
  - split; [intros Hl; by inversion Hl | intros ->; constructor].
  - split.
    + intros Hl. inversion Hl as [| |? ? s1 s2 H1 H2| | | |]; subst.
      apply lang_Chr in H1 as ->. apply IH in H2 as ->. done.
    + intros ->. change (String a w) with (String a EmptyString +:+ w).
      constructor; [by apply lang_Chr | by apply IH].
Qed.

(** [/w$/.test(s)] for a literal [w] says that [s] ends in [w]. *)
Lemma test_end_Lit (w s : string) : test_end (Lit w) s = true ↔ ends_with s w.
Proof.
  rewrite test_end_spec. unfold ends_with. split.
  - intros (p & t & -> & Hl). apply lang_Lit in Hl as ->. eauto.
  - intros [p ->]. exists p, w. split; [done | by apply lang_Lit].
Qed.

Lemma test_end_Lit_false (w s : string) : test_end (Lit w) s = false ↔ ¬ ends_with s w.
Proof. rewrite <- test_end_Lit. by destruct (test_end (Lit w) s). Qed.

End RegexFacts.

Module ExtFacts.
Import Str StrFacts Regex RegexFacts Wmr Spec.

Lemma lang_cls_inv (p : ascii → bool) (s : string) :
  lang (Cls p) s → ∃ a, s = String a EmptyString ∧ p a = true.
Proof. intros Hl. inversion Hl; subst. eauto. Qed.

Lemma lang_OneOf2 (a b : ascii) (s : string) :
  lang (OneOf2 a b) s ↔ s = String a EmptyString ∨ s = String b EmptyString.
Proof.
  split.
  - intros Hl. apply lang_cls_inv in Hl as (c & -> & Hp).
    apply orb_true_iff in Hp as [Hp | Hp]; apply Ascii.eqb_eq in Hp as ->; auto.
  - intros [-> | ->]; constructor; rewrite !Ascii.eqb_refl; [done | apply orb_true_r].
Qed.

Lemma lang_Opt (r : re) (s : string) : lang (Opt r) s ↔ lang r s ∨ s = EmptyString.
Proof.
  split.
  - intros Hl. inversion Hl as [| | |? ? ? H1|? ? ? H1| |]; subst; [by left|].
    inversion H1. by right.
  - intros [Hl | ->]; [by apply lang_alt_l | apply lang_alt_r; constructor].
Qed.

(** Take a [lang] hypothesis over a star-free expression apart. *)
Ltac inv_lang :=
  repeat match goal with
  | Hl : lang (Chr _) _ |- _ => apply lang_Chr in Hl; subst
  | Hl : lang (Lit _) _ |- _ => apply lang_Lit in Hl; subst
  | Hl : lang (OneOf2 _ _) _ |- _ => apply lang_OneOf2 in Hl as [-> | ->]
  | Hl : lang (Opt _) _ |- _ => apply lang_Opt in Hl as [Hl | ->]
  | Hl : lang Eps _ |- _ => inversion Hl; subst; clear Hl
  | Hl : lang (Cat _ _) _ |- _ => inversion Hl; subst; clear Hl
  | Hl : lang (Alt _ _) _ |- _ => inversion Hl; subst; clear Hl
  end.

Ltac in_list :=
  match goal with |- ?P => apply (bool_decide_unpack P) end; vm_compute; exact I.

Ltac each_member Hin :=
  repeat (apply elem_of_cons in Hin as [-> | Hin]; [apply matches_lang; reflexivity|]);
  by apply elem_of_nil in Hin.

Lemma lang_module_ext (t : string) : lang re_module_ext t ↔ t ∈ module_exts.
Proof.
  split.
  - intros Hl. unfold re_module_ext in Hl. inv_lang; in_list.
  - intros Hin. unfold module_exts in Hin. each_member Hin.
Qed.

Lemma lang_style_ext (t : string) : lang re_style_ext t ↔ t ∈ style_exts.
Proof.
  split.
  - intros Hl. unfold re_style_ext in Hl. inv_lang; in_list.
  - intros Hin. unfold style_exts in Hin. each_member Hin.
Qed.

Lemma lang_script_ext (t : string) : lang re_script_ext t ↔ t ∈ script_exts.
Proof.
  split.
  - intros Hl. unfold re_script_ext in Hl. inv_lang; in_list.
  - intros Hin. unfold script_exts in Hin. each_member Hin.
Qed.

Lemma lang_rel_or_abs (t : string) : lang re_rel_or_abs t ↔ t ∈ ["/"; "./"; "../"].
Proof.
  split.
  - intros Hl. unfold re_rel_or_abs in Hl. inv_lang; in_list.
  - intros Hin. each_member Hin.
Qed.

Lemma test_end_finite (X : re) (exts : list string) (s : string) :
  (∀ t, lang X t ↔ t ∈ exts) → test_end X s = true ↔ has_ext exts s.
Proof.
  intros HX. rewrite test_end_spec. unfold has_ext, ends_with. split.
  - intros (p & t & -> & Hl). exists t. split; [by apply HX | eauto].
  - intros (e & Hin & p & ->). exists p, e. split; [done | by apply HX].
Qed.

Lemma test_module_ext (s : string) : test_end re_module_ext s = true ↔ has_ext module_exts s.
Proof. apply test_end_finite, lang_module_ext. Qed.

Lemma test_style_ext (s : string) : test_end re_style_ext s = true ↔ has_ext style_exts s.
Proof. apply test_end_finite, lang_style_ext. Qed.

Lemma test_script_ext (s : string) : test_end re_script_ext s = true ↔ has_ext script_exts s.
Proof. apply test_end_finite, lang_script_ext. Qed.

Lemma test_css_js (s : string) : test_end re_css_js s = true ↔ ends_with s proxy_suffix.
Proof. apply test_end_Lit. Qed.

Lemma test_module_css (s : string) : test_end re_module_css s = true ↔ ends_with s ".module.css".
Proof. apply test_end_Lit. Qed.

Lemma test_rel_or_abs (s : string) :
  test_start re_rel_or_abs s = true ↔ relative_or_absolute s.
Proof.
  unfold test_start, relative_or_absolute, starts_with. rewrite matches_prefix_spec. split.
  - intros (p & t & -> & Hl). apply lang_rel_or_abs in Hl.
    rewrite !elem_of_cons in Hl. destruct Hl as [-> | [-> | [-> | Hl]]]; eauto.
    by apply elem_of_nil in Hl.
  - intros [[r ->] | [[r ->] | [r ->]]]; eexists _, r; (split; [done|]);
      apply matches_lang; reflexivity.
Qed.

End ExtFacts.

(* ================================================================== *)
(** ** Stepping through monadic code *)

Section MonadFacts.
Import Wmr.
Context `{Collaborators}.

Lemma bind_ret {A B} (a : A) (k : A → M B) (st : state) : (x <- ret a ;; k x) st = k a st.
Proof. reflexivity. Qed.

Lemma bind_throw {A B} (e : thrown) (k : A → M B) (st : state) :
  (x <- throw e ;; k x) st = (Throw e, st).
Proof. reflexivity. Qed.

Lemma bind_bind {A B C} (m : M A) (k : A → M B) (k' : B → M C) (st : state) :
  (y <- (x <- m ;; k x) ;; k' y) st = (x <- m ;; y <- k x ;; k' y) st.
Proof. unfold bind. by destruct (m st) as [[a|e] st1]. Qed.

Lemma bind_emit {B} (e : event) (k : unit → M B) (st : state) :
  (x <- emit e ;; k x) st = k tt (record e st).
Proof. reflexivity. Qed.

Lemma bind_cache_has {B} (id : string) (k : bool → M B) (st : state) :
  (hit <- cache_has id ;; k hit) st = k (bool_decide (is_Some (WRITE_CACHE st !! id))) st.
Proof. reflexivity. Qed.

Lemma bind_cache_get {B} (id : string) (k : option string → M B) (st : state) :
  (v <- cache_get id ;; k v) st = k (WRITE_CACHE st !! id) st.
Proof. reflexivity. Qed.

Lemma bind_call_ok {A B} (e : event) (f : World → result A * World) (k : A → M B)
    (st : state) (a : A) (w : World) :
  f (world st) = (Ok a, w) → (x <- call e f ;; k x) st = k a (with_world w (record e st)).
Proof. intros Hf. unfold bind, call. by rewrite Hf. Qed.

Lemma bind_call_throw {A B} (e : event) (f : World → result A * World) (k : A → M B)
    (st : state) (t : thrown) (w : World) :
  f (world st) = (Throw t, w) → (x <- call e f ;; k x) st = (Throw t, with_world w (record e st)).
Proof. intros Hf. unfold bind, call. by rewrite Hf. Qed.

Lemma bind_ok {A B} (m : M A) (k : A → M B) (st st1 : state) (a : A) :
  m st = (Ok a, st1) → (x <- m ;; k x) st = k a st1.
Proof. intros Hm. unfold bind. by rewrite Hm. Qed.

Lemma bind_fail {A B} (m : M A) (k : A → M B) (st st1 : state) (e : thrown) :
  m st = (Throw e, st1) → (x <- m ;; k x) st = (Throw e, st1).
Proof. intros Hm. unfold bind. by rewrite Hm. Qed.

(** A [bind] that succeeds went through both halves. *)
Lemma bind_inv_ok {A B} (m : M A) (k : A → M B) (st st2 : state) (b : B) :
  (x <- m ;; k x) st = (Ok b, st2) → ∃ a st1, m st = (Ok a, st1) ∧ k a st1 = (Ok b, st2).
Proof. unfold bind. destruct (m st) as [[a|e] st1]; [eauto | done]. Qed.

Lemma writeCacheFile_eq (rootDir fileName data : string) (st : state) :
  writeCacheFile rootDir fileName data st =
    (Ok tt,
     with_background
       (fun b => b ++ [ {| m_mkdir := if decide (path_dirname (path_resolve rootDir fileName) ≠ rootDir)
                                      then Some (path_dirname (path_resolve rootDir fileName))
                                      else None;
                           m_file := path_resolve rootDir fileName;
                           m_data := data |} ])
       (with_cache (insert fileName data) st)).
Proof. reflexivity. Qed.

End MonadFacts.

(* ================================================================== *)
(** ** The watcher and the cache *)

Section Invalidation.
Import Str StrFacts Regex RegexFacts Wmr Spec ExtFacts.
Context `{Collaborators}.

Lemma cache_on_change (cwd filename : string) (st : state) :
  WRITE_CACHE (on_change cwd filename st) =
    if test_end re_module_css (to_posix filename)
    then delete (to_posix filename +:+ ".js") (delete (to_posix filename) (WRITE_CACHE st))
    else delete (to_posix filename) (WRITE_CACHE st).
Proof.
  unfold on_change. cbn zeta.
  destruct (test_end re_module_css (to_posix filename));
    destruct (Nat.eqb _ 0); reflexivity.
Qed.

Lemma cache_has_lookup (id : string) (st : state) :
  cache_has id st = (Ok (bool_decide (is_Some (WRITE_CACHE st !! id))), st).
Proof. reflexivity. Qed.

Lemma cache_has_absent (id : string) (st : state) :
  WRITE_CACHE st !! id = None → cache_has id st = (Ok false, st).
Proof.
  intros Hnone. rewrite cache_has_lookup, Hnone.
  rewrite bool_decide_eq_false_2; [done | by intros [? ?]].
Qed.

Lemma cache_has_present (id body : string) (st : state) :
  WRITE_CACHE st !! id = Some body → cache_has id st = (Ok true, st).
Proof.
  intros Hsome. rewrite cache_has_lookup, Hsome.
  rewrite bool_decide_eq_true_2; [done | eauto].
Qed.

(** The listener's two deletions, in terms of the key it computes. *)
Lemma on_change_deletes (cwd filename : string) (st : state) :
  let id := to_posix filename in
  let st' := on_change cwd filename st in
  (WRITE_CACHE st' !! id = None ∧ cache_has id st' = (Ok false, st')) ∧
  (∀ file, module_id cwd file = id → isCached cwd file st' = (Ok false, st')) ∧
  (ends_with id ".module.css" →
     WRITE_CACHE st' !! (id +:+ ".js") = None ∧
     cache_has (id +:+ ".js") st' = (Ok false, st')).
Proof.
  intros id st'.
  assert (Hid : WRITE_CACHE st' !! id = None).
  { subst st'. rewrite cache_on_change. fold id.
    destruct (test_end re_module_css id).
    - destruct (decide (id +:+ ".js" = id)) as [-> | Hne].
      + apply lookup_delete_eq.
      + rewrite lookup_delete_ne by done. apply lookup_delete_eq.
    - apply lookup_delete_eq. }
  split; [split; [done | by apply cache_has_absent] |]. split.
  - intros file <-. unfold isCached. by apply cache_has_absent.
  - intros Hscoped. apply test_module_css in Hscoped.
    assert (Hjs : WRITE_CACHE st' !! (id +:+ ".js") = None).
    { subst st'. rewrite cache_on_change. fold id. rewrite Hscoped. apply lookup_delete_eq. }
    split; [done | by apply cache_has_absent].
Qed.

(** C10. The [change] listener leaves every cache entry alone except the
    one under the file's own id and, for a name ending in [.module.css]
    only, the one under that id with [.js] appended. *)
Theorem C10_change_frame (cwd filename : string) (st : state) :
  let id := to_posix filename in
  let st' := on_change cwd filename st in
  (¬ ends_with id ".module.css" → WRITE_CACHE st' = delete id (WRITE_CACHE st)) ∧
  (¬ ends_with id ".module.css" →
     ∀ k, k ≠ id → WRITE_CACHE st' !! k = WRITE_CACHE st !! k) ∧
  (∀ k, k ≠ id → k ≠ id +:+ ".js" → WRITE_CACHE st' !! k = WRITE_CACHE st !! k).
Proof.
  intros id st'. subst st'. rewrite cache_on_change. fold id.
  split; [|split].
  - intros Hplain. apply test_end_Lit_false in Hplain.
    unfold re_module_css. by rewrite Hplain.
  - intros Hplain k Hk. apply test_end_Lit_false in Hplain.
    unfold re_module_css. rewrite Hplain. by rewrite lookup_delete_ne.
  - intros k Hk Hkjs. destruct (test_end re_module_css id).
    + by rewrite !lookup_delete_ne.
    + by rewrite lookup_delete_ne.
Qed.

End Invalidation.

(* ================================================================== *)
(** ** Specifier rewriting and transform dispatch *)

Section Rewriting.
Import Str StrFacts Regex RegexFacts Wmr Spec ExtFacts.

Lemma starts_with_app_inv (p s t : string) :
  starts_with (s +:+ t) p → String.length p ≤ String.length s → starts_with s p.
Proof.
  revert s. induction p as [|a p IH]; intros s [r Hr] Hlen.
  - by exists s.
  - destruct s as [|b s]; [simpl in Hlen; lia|].
    rewrite !app_cons in Hr. injection Hr as -> Hr.
    destruct (IH s) as [r' ->]; [by exists r | simpl in Hlen; lia |].
    by exists r'.
Qed.

Lemma starts_with_app (p s t : string) : starts_with s p → starts_with (s +:+ t) p.
Proof. intros [r ->]. exists (r +:+ t). by rewrite app_assoc. Qed.

Lemma relative_or_absolute_app (s t : string) :
  3 ≤ String.length s → relative_or_absolute (s +:+ t) ↔ relative_or_absolute s.
Proof.
  intros Hlen. unfold relative_or_absolute. split.
  - intros [Hs | [Hs | Hs]]; apply starts_with_app_inv in Hs; auto; simpl; lia.
  - intros [Hs | [Hs | Hs]]; eauto using starts_with_app.
Qed.

Lemma resolveId_unfold (spec : string) :
  spec ≠ "wmr" →
  resolveId spec =
    let spec' := if endsWith spec ".css" then spec +:+ ".js" else spec in
    if test_start re_rel_or_abs spec' then spec' else "/@npm/" +:+ spec'.
Proof.
  intros Hne. unfold resolveId. apply String.eqb_neq in Hne. rewrite Hne. cbn zeta.
  by destruct (test_start re_rel_or_abs _).
Qed.

Lemma endsWith_false (s t : string) : endsWith s t = false ↔ ¬ ends_with s t.
Proof. rewrite <- endsWith_spec. by destruct (endsWith s t). Qed.

Lemma test_rel_or_abs_false (s : string) :
  test_start re_rel_or_abs s = false ↔ ¬ relative_or_absolute s.
Proof. rewrite <- test_rel_or_abs. by destruct (test_start re_rel_or_abs s). Qed.

(** C3. [resolveId] of the module pipeline sends [left-pad] to
    [/@npm/left-pad], leaves [./util.js] alone, sends [./style.css] to
    [./style.css.js] and [wmr] to [/_wmr.js]; in general a specifier other
    than [wmr] gets [.js] appended when it ends in [.css], and then the
    prefix [/@npm/] unless it starts with [./], [../] or [/]. *)
Theorem C3_resolveId :
  (resolveId "left-pad" = "/@npm/left-pad" ∧
   resolveId "./util.js" = "./util.js" ∧
   resolveId "./style.css" = "./style.css.js" ∧
   resolveId "wmr" = "/_wmr.js") ∧
  (∀ spec, spec ≠ "wmr" → ¬ relative_or_absolute spec → ¬ ends_with spec ".css" →
     resolveId spec = "/@npm/" +:+ spec) ∧
  (∀ spec, spec ≠ "wmr" → relative_or_absolute spec → ¬ ends_with spec ".css" →
     resolveId spec = spec) ∧
  (∀ spec, relative_or_absolute spec → ends_with spec ".css" →
     resolveId spec = spec +:+ ".js") ∧
  (∀ spec, ¬ relative_or_absolute spec → ends_with spec ".css" →
     resolveId spec = "/@npm/" +:+ spec +:+ ".js").
Proof.
  assert (Hcss : ∀ spec, ends_with spec ".css" → spec ≠ "wmr" ∧ 3 ≤ String.length spec).
  { intros spec [p ->]. split.
    - intros Heq. apply (f_equal String.length) in Heq.
      rewrite length_app in Heq. simpl in Heq. lia.
    - rewrite length_app. simpl. lia. }
  split; [by vm_compute|]. repeat split.
  - intros spec Hne Hbare Hext. rewrite resolveId_unfold by done.
    apply endsWith_false in Hext. rewrite Hext. cbn zeta.
    apply test_rel_or_abs_false in Hbare. by rewrite Hbare.
  - intros spec Hne Hrel Hext. rewrite resolveId_unfold by done.
    apply endsWith_false in Hext. rewrite Hext. cbn zeta.
    apply test_rel_or_abs in Hrel. by rewrite Hrel.
  - intros spec Hrel Hext. destruct (Hcss spec Hext) as [Hne Hlen].
    rewrite resolveId_unfold by done.
    apply endsWith_spec in Hext. rewrite Hext. cbn zeta.
    apply (relative_or_absolute_app spec ".js" Hlen), test_rel_or_abs in Hrel. by rewrite Hrel.
  - intros spec Hbare Hext. destruct (Hcss spec Hext) as [Hne Hlen].
    rewrite resolveId_unfold by done.
    apply endsWith_spec in Hext. rewrite Hext. cbn zeta.
    assert (Hbare' : ¬ relative_or_absolute (spec +:+ ".js")).
    { by rewrite relative_or_absolute_app. }
    apply test_rel_or_abs_false in Hbare'. by rewrite Hbare'.
Qed.

Lemma C3_resolveId_witness :
  resolveId "lodash/fp" = "/@npm/lodash/fp" ∧
  resolveId "../lib/dep.mjs" = "../lib/dep.mjs" ∧
  resolveId "/global.css" = "/global.css.js" ∧
  resolveId "normalize.css" = "/@npm/normalize.css.js".
Proof.
  destruct C3_resolveId as (_ & Hbare & Hrel & Hcss & Hboth).
  split; [|split; [|split]].
  - apply Hbare; [done | | ].
    + apply test_rel_or_abs_false. reflexivity.
    + apply endsWith_false. reflexivity.
  - apply Hrel; [done | | ].
    + apply test_rel_or_abs. reflexivity.
    + apply endsWith_false. reflexivity.
  - apply (Hcss "/global.css").
    + apply test_rel_or_abs. reflexivity.
    + apply endsWith_spec. reflexivity.
  - apply (Hboth "normalize.css").
    + apply test_rel_or_abs_false. reflexivity.
    + apply endsWith_spec. reflexivity.
Defined.

Lemma has_ext_css_js (file : string) : ends_with file proxy_suffix → has_ext module_exts file.
Proof.
  intros [p ->]. exists ".js". split; [in_list|].
  exists (p +:+ ".css"). by rewrite app_assoc.
Qed.

(** C7. The dispatch follows the priority order: the path [/_wmr.js]
    selects the runtime client; otherwise a file ending in [.css.js]
    selects the proxy pipeline, although it also ends in a module
    extension; otherwise a module extension selects the module pipeline;
    otherwise a stylesheet extension selects the stylesheet pipeline;
    otherwise the request is passed through. *)
Theorem C7_select (path file : string) :
  (path = "/_wmr.js" → select path file = RuntimeClient) ∧
  (path ≠ "/_wmr.js" → ends_with file proxy_suffix →
     select path file = CssModule ∧ has_ext module_exts file) ∧
  (path ≠ "/_wmr.js" → ¬ ends_with file proxy_suffix → has_ext module_exts file →
     select path file = Js) ∧
  (path ≠ "/_wmr.js" → ¬ has_ext module_exts file → has_ext style_exts file →
     select path file = Css) ∧
  (path ≠ "/_wmr.js" → ¬ has_ext module_exts file → ¬ has_ext style_exts file →
     select path file = Generic).
Proof.
  unfold select. destruct (String.eqb_spec path "/_wmr.js") as [-> | Hne].
  { repeat split; done. }
  split; [done|].
  destruct (test_end re_css_js file) eqn:Hproxy.
  { apply test_css_js in Hproxy. repeat split; try done.
    - by apply has_ext_css_js.
    - intros _ Hno. destruct Hno. by apply has_ext_css_js.
    - intros _ Hno. destruct Hno. by apply has_ext_css_js. }
  assert (Hnp : ¬ ends_with file proxy_suffix).
  { intros Hp. apply test_css_js in Hp. congruence. }
  destruct (test_end re_module_ext file) eqn:Hmod.
  { apply test_module_ext in Hmod. repeat split; done. }
  assert (Hnm : ¬ has_ext module_exts file).
  { intros Hm. apply test_module_ext in Hm. congruence. }
  destruct (test_end re_style_ext file) eqn:Hsty.
  { apply test_style_ext in Hsty. repeat split; done. }
  assert (Hns : ¬ has_ext style_exts file).
  { intros Hs. apply test_style_ext in Hs. congruence. }
  repeat split; done.
Qed.

Lemma C7_select_witness :
  select "/_wmr.js" "/proj/_wmr.js" = RuntimeClient ∧
  select "/a.module.css.js" "/proj/a.module.css.js" = CssModule ∧
  select "/main.tsx" "/proj/main.tsx" = Js ∧
  select "/theme.scss" "/proj/theme.scss" = Css ∧
  select "/logo.png" "/proj/logo.png" = Generic.
Proof.
  split; [|split; [|split; [|split]]].
  - by apply (C7_select "/_wmr.js" "/proj/_wmr.js").
  - apply (C7_select "/a.module.css.js" "/proj/a.module.css.js"); [done|].
    apply test_css_js. reflexivity.
  - apply (C7_select "/main.tsx" "/proj/main.tsx"); [done | | ].
    + intros Hp. apply test_css_js in Hp. discriminate Hp.
    + apply test_module_ext. reflexivity.
  - apply (C7_select "/theme.scss" "/proj/theme.scss"); [done | | ].
    + intros Hm. apply test_module_ext in Hm. discriminate Hm.
    + apply test_style_ext. reflexivity.
  - apply (C7_select "/logo.png" "/proj/logo.png"); [done | | ].
    + intros Hm. apply test_module_ext in Hm. discriminate Hm.
    + intros Hs. apply test_style_ext in Hs. discriminate Hs.
Defined.

End Rewriting.

(* ================================================================== *)
(** ** The extension heuristic *)

Section Heuristic.
Import Str StrFacts Regex RegexFacts Wmr Spec ExtFacts.
Context `{Collaborators}.

Lemma lang_star_word (w : string) : lang (Star Word) w ↔ all_word w = true.
Proof.
  split.
  - intros Hl. remember (Star Word) as r eqn:Er.
    induction Hl as [| | | | | |r0 s1 s2 H1 _ H2 IH2]; try done.
    injection Er as ->. apply lang_cls_inv in H1 as (a & -> & Ha).
    rewrite app_cons, app_nil_l. simpl. rewrite Ha. by apply IH2.
  - induction w as [|a w IH]; simpl; intros Hw; [constructor|].
    apply andb_true_iff in Hw as [Ha Hw].
    change (String a w) with (String a EmptyString +:+ w).
    constructor; [by constructor | by apply IH].
Qed.

Lemma lang_long_ext (t : string) :
  lang re_long_ext t ↔ ∃ w, t = "." +:+ w ∧ 2 ≤ String.length w ∧ all_word w = true.
Proof.
  unfold re_long_ext. split.
  - intros Hl. inversion Hl as [| |? ? s0 t0 Hdot Hrest| | | |]; subst.
    apply lang_Chr in Hdot as ->.
    inversion Hrest as [| |? ? s1 t1 Ha Hrest1| | | |]; subst.
    inversion Hrest1 as [| |? ? s2 t2 Hb Hstar| | | |]; subst.
    apply lang_cls_inv in Ha as (a & -> & Ha), Hb as (b & -> & Hb).
    apply lang_star_word in Hstar.
    exists (String a (String b t2)). split; [done|]. split; [simpl; lia|].
    simpl. by rewrite Ha, Hb.
  - intros (w & -> & Hlen & Hw). destruct w as [|a [|b w]]; [simpl in Hlen; lia..|].
    simpl in Hw. apply andb_true_iff in Hw as [Ha Hw]. apply andb_true_iff in Hw as [Hb Hw].
    change ("." +:+ String a (String b w))
      with ("." +:+ (String a EmptyString +:+ (String b EmptyString +:+ w))).
    repeat constructor; try done. by apply lang_star_word.
Qed.

Lemma test_long_ext (s : string) : test_end re_long_ext s = true ↔ has_long_ext s.
Proof.
  rewrite test_end_spec. unfold has_long_ext, ends_with. split.
  - intros (p & t & -> & Hl). apply lang_long_ext in Hl as (w & -> & Hlen & Hw). eauto.
  - intros (w & [p ->] & Hlen & Hw). exists p, ("." +:+ w). split; [done|].
    apply lang_long_ext. eauto.
Qed.

Lemma test_long_ext_false (s : string) : test_end re_long_ext s = false ↔ ¬ has_long_ext s.
Proof. rewrite <- test_long_ext. by destruct (test_end re_long_ext s). Qed.

Lemma isFile_on_disk (file : string) (st : state) :
  isFile file st =
    (Ok (on_disk file (world st)),
     with_world (snd (fs_stat_isFile file (world st))) (record (EvStat file) st)).
Proof.
  unfold isFile, try_catch, call, on_disk.
  destruct (fs_stat_isFile file (world st)) as [[[|]|e] w]; reflexivity.
Qed.

(** C4. With a referer ending in [.ts], [.tsx], [.js] or [.jsx] and a path
    without a dot-and-two-word-characters ending, the file is the first of:
    [file.tsx] if cached, [file.ts] if cached, [file.tsx] if on disk,
    [file.ts] if on disk, else [file] itself; the cache is consulted before
    the disk, and with both files on disk and none cached [file.tsx] is
    taken. *)
Theorem C4_extension_heuristic (cwd : string) (req : request) (path file : string) (st : state) :
  has_ext script_exts (default EmptyString (req_referer req)) →
  ¬ has_long_ext path →
  let cached ext := bool_decide (is_Some (WRITE_CACHE st !! module_id cwd (file +:+ ext))) in
  let w1 := snd (fs_stat_isFile (file +:+ ".tsx") (world st)) in
  let chosen :=
    first_match [ (cached ".tsx", file +:+ ".tsx");
                  (cached ".ts", file +:+ ".ts");
                  (on_disk (file +:+ ".tsx") (world st), file +:+ ".tsx");
                  (on_disk (file +:+ ".ts") w1, file +:+ ".ts") ] file in
  let st' := snd (resolve_extension cwd req path file st) in
  fst (resolve_extension cwd req path file st) = Ok chosen ∧
  WRITE_CACHE st' = WRITE_CACHE st ∧
  (cached ".tsx" || cached ".ts" = true → st' = st) ∧
  (cached ".tsx" = false → cached ".ts" = false →
   on_disk (file +:+ ".tsx") (world st) = true → chosen = file +:+ ".tsx").
Proof.
  intros Href Hext cached w1 chosen st'.
  apply test_script_ext in Href. apply test_long_ext_false in Hext.
  subst st' chosen. unfold resolve_extension. rewrite Href, Hext. cbn [andb negb].
  unfold isCached. rewrite bind_cache_has. fold (cached ".tsx"). cbn [first_match].
  destruct (cached ".tsx") eqn:C1; [by repeat split|].
  rewrite bind_cache_has. fold (cached ".ts").
  destruct (cached ".ts") eqn:C2; [by repeat split|].
  rewrite (bind_ok _ _ _ _ _ (isFile_on_disk _ _)).
  destruct (on_disk (file +:+ ".tsx") (world st)) eqn:D1; [by repeat split|].
  rewrite (bind_ok _ _ _ _ _ (isFile_on_disk _ _)). cbn [world with_world record]. fold w1.
  destruct (on_disk (file +:+ ".ts") w1) eqn:D2; by repeat split.
Qed.

End Heuristic.

Section HeuristicRun.
Import Str StrFacts Regex RegexFacts Wmr Spec ExtFacts.
#[local] Existing Instance Demo.collaborators.

Lemma C4_extension_heuristic_witness :
  on_disk "/proj/src/app.tsx" 0 = true ∧
  on_disk "/proj/src/app.ts" 1 = true ∧
  fst (resolve_extension Demo.cwd
         (Demo.get_from "/src/main.ts" "/src/app") "/src/app" "/proj/src/app" Demo.start)
  = Ok "/proj/src/app.tsx".
Proof.
  split; [reflexivity|]. split; [reflexivity|].
  refine (proj1 (C4_extension_heuristic Demo.cwd
            (Demo.get_from "/src/main.ts" "/src/app") "/src/app" "/proj/src/app"
            Demo.start _ _)).
  - apply test_script_ext. reflexivity.
  - apply test_long_ext_false. reflexivity.
Defined.

End HeuristicRun.

(* ================================================================== *)
(** ** The try/catch of the request handler *)

Section Respond.
Import Str StrFacts Regex RegexFacts Wmr Spec ExtFacts.
Context `{Collaborators}.

Lemma respond_throw (name : string) (transform : M presult) (st st1 : state) (e : thrown) :
  transform st = (Throw e, st1) →
  respond name transform st =
    (Ok tt, if is_nullish e then record (EvNext None) st1
            else record (EvNext (Some e)) (record (EvOnError e) st1)).
Proof.
  intros Ht. unfold respond, try_catch. rewrite (bind_fail _ _ _ _ _ Ht).
  by destruct (is_nullish e).
Qed.

Lemma respond_content (name : string) (transform : M presult) (st st1 : state) (body : string) :
  transform st = (Ok (PContent body), st1) →
  respond name transform st =
    (Ok tt,
     record (EvEnd body)
       (record (EvWriteHead 200 (String.length body) name
                  (Date_now (world st1) - Date_now (world st))) st1)).
Proof. intros Ht. unfold respond, try_catch. by rewrite (bind_ok _ _ _ _ _ Ht). Qed.

Lemma respond_false (name : string) (transform : M presult) (st st1 : state) :
  transform st = (Ok PFalse, st1) →
  respond name transform st = (Ok tt, record (EvNext None) st1).
Proof. intros Ht. unfold respond, try_catch. by rewrite (bind_ok _ _ _ _ _ Ht). Qed.

Lemma respond_nullish (name : string) (transform : M presult) (st st1 : state) :
  transform st = (Ok PNullish, st1) → respond name transform st = (Ok tt, st1).
Proof. intros Ht. unfold respond, try_catch. by rewrite (bind_ok _ _ _ _ _ Ht). Qed.

Lemma respond_total (name : string) (transform : M presult) (st : state) :
  ∃ st', respond name transform st = (Ok tt, st').
Proof.
  destruct (transform st) as [[[body| |]|e] st1] eqn:Ht.
  - rewrite (respond_content _ _ _ _ _ Ht). eauto.
  - rewrite (respond_false _ _ _ _ Ht). eauto.
  - rewrite (respond_nullish _ _ _ _ Ht). eauto.
  - rewrite (respond_throw _ _ _ _ _ Ht). eauto.
Qed.

Lemma filter_app_nil {A} (P : A → bool) (l l' : list A) :
  List.filter P l' = [] → List.filter P (l ++ l') = List.filter P l.
Proof. intros Hnil. by rewrite List.filter_app, Hnil, List.app_nil_r. Qed.

(** C6. When the transform throws [null], and equally when it throws
    [undefined], the handler calls [next()] and nothing else: [onError] is
    not called.  When it throws any other value, the handler calls
    [onError] with that very value and then [next] with it.  In all three
    cases nothing is written to the response and the cache is left alone,
    and the handler itself completes normally whatever the transform
    does. *)
Theorem C6_thrown_errors (name : string) (transform : M presult) (st : state) :
  (∀ st1, transform st = (Throw ThrowNull, st1) →
     respond name transform st = (Ok tt, record (EvNext None) st1)) ∧
  (∀ st1, transform st = (Throw ThrowUndefined, st1) →
     respond name transform st = (Ok tt, record (EvNext None) st1)) ∧
  (∀ v st1, transform st = (Throw (ThrowValue v), st1) →
     respond name transform st =
       (Ok tt, record (EvNext (Some (ThrowValue v))) (record (EvOnError (ThrowValue v)) st1))) ∧
  (∀ e st1, transform st = (Throw e, st1) →
     ∃ st', respond name transform st = (Ok tt, st') ∧
       log st' = log st1 ++
                 match e with
                 | ThrowNull | ThrowUndefined => [EvNext None]
                 | ThrowValue _ => [EvOnError e; EvNext (Some e)]
                 end ∧
       List.filter writes_response (log st') = List.filter writes_response (log st1) ∧
       WRITE_CACHE st' = WRITE_CACHE st1 ∧ world st' = world st1) ∧
  (∃ st', respond name transform st = (Ok tt, st')).
Proof.
  split; [|split; [|split; [|split]]].
  - intros st1 Ht. by rewrite (respond_throw _ _ _ _ _ Ht).
  - intros st1 Ht. by rewrite (respond_throw _ _ _ _ _ Ht).
  - intros v st1 Ht. by rewrite (respond_throw _ _ _ _ _ Ht).
  - intros e st1 Ht. eexists. split; [by apply respond_throw|].
    destruct e as [| |v]; cbn [is_nullish log record WRITE_CACHE world].
    + split; [done|]. split; [by apply filter_app_nil | done].
    + split; [done|]. split; [by apply filter_app_nil | done].
    + rewrite <- List.app_assoc. split; [done|]. split; [by apply filter_app_nil | done].
  - apply respond_total.
Qed.

End Respond.

Section RespondRun.
Import Wmr.
#[local] Existing Instance Demo.collaborators.

(** A stylesheet request declined by [throw null], a transform that
    throws [undefined], and a module whose file is missing. *)
Lemma C6_thrown_errors_witness :
  (respond "css" (TRANSFORMS_css Demo.theme_css) Demo.start =
     (Ok tt, record (EvNext None) Demo.start) ∧
   respond "js" (throw ThrowUndefined) Demo.start =
     (Ok tt, record (EvNext None) Demo.start)) ∧
  log (Demo.after (Demo.get "/src/missing.js") Demo.start) =
    [ EvSetHeader "content-type" "application/javascript";
      EvSetHeader "content-type" "application/javascript";
      EvReadFile "/proj/src/missing.js" ] ++
    [ EvOnError (ThrowValue "ENOENT"); EvNext (Some (ThrowValue "ENOENT")) ].
Proof.
  split; [split|].
  - exact (proj1 (C6_thrown_errors "css" (TRANSFORMS_css Demo.theme_css) Demo.start)
             Demo.start eq_refl).
  - exact (proj1 (proj2 (C6_thrown_errors "js" (throw ThrowUndefined) Demo.start))
             Demo.start eq_refl).
  - pose (st := record (EvSetHeader "content-type" "application/javascript") Demo.start).
    destruct (proj1 (proj2 (proj2 (proj2
                (C6_thrown_errors "js" (TRANSFORMS_js Demo.missing_js) st))))
                (ThrowValue "ENOENT") (snd (TRANSFORMS_js Demo.missing_js st)) eq_refl)
      as (st' & Hrun & Hlog & _).
    change (Demo.after (Demo.get "/src/missing.js") Demo.start)
      with (snd (respond "js" (TRANSFORMS_js Demo.missing_js) st)).
    rewrite Hrun. exact Hlog.
Defined.

End RespondRun.

(* ================================================================== *)
(** ** The pipelines and the cache *)

Section Pipelines.
Import Regex RegexFacts Wmr Spec ExtFacts.
Context `{Collaborators}.

Lemma return_cached_hit (id body : string) (st : state) :
  WRITE_CACHE st !! id = Some body → return_cached id st = (Ok (PContent body), st).
Proof. intros Hb. unfold return_cached. rewrite bind_cache_get, Hb. reflexivity. Qed.

Lemma hit_true (id body : string) (st : state) :
  WRITE_CACHE st !! id = Some body → bool_decide (is_Some (WRITE_CACHE st !! id)) = true.
Proof. intros ->. by apply bool_decide_eq_true_2. Qed.

Lemma hit_true_inv (id : string) (st : state) :
  bool_decide (is_Some (WRITE_CACHE st !! id)) = true → ∃ body, WRITE_CACHE st !! id = Some body.
Proof. intros Hd. by apply bool_decide_eq_true_1 in Hd as [body ?]; eauto. Qed.

Lemma js_hit (c : ctx) (st : state) (body : string) :
  WRITE_CACHE st !! c_id c = Some body →
  TRANSFORMS_js c st = (Ok (PContent body), record js_header st).
Proof.
  intros Hb. unfold TRANSFORMS_js. rewrite bind_emit, bind_cache_has.
  cbn [WRITE_CACHE record]. rewrite (hit_true _ _ _ Hb). by apply return_cached_hit.
Qed.

Lemma cssModule_hit (c : ctx) (st : state) (body : string) :
  WRITE_CACHE st !! c_id c = Some body →
  TRANSFORMS_cssModule c st = (Ok (PContent body), record js_header st).
Proof.
  intros Hb. unfold TRANSFORMS_cssModule. rewrite bind_emit, bind_cache_has.
  cbn [WRITE_CACHE record]. rewrite (hit_true _ _ _ Hb). by apply return_cached_hit.
Qed.

Lemma css_guard (c : ctx) (st : state) :
  test_end re_module_css (c_path c) = false → TRANSFORMS_css c st = (Throw ThrowNull, st).
Proof. intros Hg. unfold TRANSFORMS_css. by rewrite Hg. Qed.

Lemma css_hit (c : ctx) (st : state) (body : string) :
  test_end re_module_css (c_path c) = true →
  WRITE_CACHE st !! c_id c = Some body →
  TRANSFORMS_css c st = (Ok (PContent body), st).
Proof.
  intros Hg Hb. unfold TRANSFORMS_css. rewrite Hg. cbn [negb].
  rewrite bind_cache_has, (hit_true _ _ _ Hb). by apply return_cached_hit.
Qed.

Lemma css_miss (c : ctx) (st : state) (code css : string) (w1 w2 : World) :
  test_end re_module_css (c_path c) = true →
  WRITE_CACHE st !! c_id c = None →
  fs_readFile (path_resolve (c_cwd c) (c_file c)) (world st) = (Ok code, w1) →
  modularizeCss code (c_id c) w1 = (Ok css, w2) →
  ∃ st', TRANSFORMS_css c st = (Ok (PContent css), st') ∧
         WRITE_CACHE st' = <[c_id c := css]> (WRITE_CACHE st).
Proof.
  intros Hg Hb Hread Hmod. unfold TRANSFORMS_css. rewrite Hg. cbn [negb].
  rewrite bind_cache_has, Hb, bool_decide_eq_false_2 by (by intros [? ?]).
  cbv iota zeta. eexists. rewrite (bind_call_ok _ _ _ _ _ _ Hread).
  rewrite (bind_call_ok _ _ _ (with_world w1 (record _ st)) _ _ Hmod).
  split; reflexivity.
Qed.

(** What a pipeline that keeps its results hands back is in the cache under
    the id when it returns. *)
Lemma stored_after_hit (id : string) (st st' : state) (r : presult) :
  bool_decide (is_Some (WRITE_CACHE st !! id)) = true →
  return_cached id st = (Ok r, st') →
  ∃ body, r = PContent body ∧ WRITE_CACHE st' !! id = Some body.
Proof.
  intros [body Hb]%hit_true_inv. rewrite (return_cached_hit _ _ _ Hb).
  intros [= <- <-]. eauto.
Qed.

Lemma stored_after_write (out id code : string) (st st' : state) (r : presult) :
  (writeCacheFile out id code ;;; ret (PContent code)) st = (Ok r, st') →
  ∃ body, r = PContent body ∧ WRITE_CACHE st' !! id = Some body.
Proof.
  rewrite (bind_ok _ _ _ _ _ (writeCacheFile_eq _ _ _ _)).
  intros [= <- <-]. exists code. split; [done|].
  cbn [WRITE_CACHE with_background with_cache]. apply lookup_insert_eq.
Qed.

Lemma js_stored (c : ctx) (st st' : state) (r : presult) :
  TRANSFORMS_js c st = (Ok r, st') →
  ∃ body, r = PContent body ∧ WRITE_CACHE st' !! c_id c = Some body.
Proof.
  unfold TRANSFORMS_js. rewrite bind_emit, bind_cache_has.
  destruct (bool_decide _) eqn:Hhit; [by apply stored_after_hit|].
  cbn zeta. intros Hrun.
  apply bind_inv_ok in Hrun as (code & s1 & _ & Hrun).
  apply bind_inv_ok in Hrun as (code1 & s2 & _ & Hrun).
  apply bind_inv_ok in Hrun as (code2 & s3 & _ & Hrun).
  by apply stored_after_write in Hrun.
Qed.

Lemma cssModule_stored (c : ctx) (st st' : state) (r : presult) :
  TRANSFORMS_cssModule c st = (Ok r, st') →
  ∃ body, r = PContent body ∧ WRITE_CACHE st' !! c_id c = Some body.
Proof.
  unfold TRANSFORMS_cssModule. rewrite bind_emit, bind_cache_has.
  destruct (bool_decide _) eqn:Hhit; [by apply stored_after_hit|].
  cbn zeta. rewrite bind_emit. intros Hrun.
  apply bind_inv_ok in Hrun as (res & s1 & _ & Hrun).
  apply bind_inv_ok in Hrun as (code1 & s2 & _ & Hrun).
  apply bind_inv_ok in Hrun as (code2 & s3 & _ & Hrun).
  by apply stored_after_write in Hrun.
Qed.

Lemma css_stored (c : ctx) (st st' : state) (r : presult) :
  TRANSFORMS_css c st = (Ok r, st') →
  ∃ body, r = PContent body ∧ WRITE_CACHE st' !! c_id c = Some body.
Proof.
  unfold TRANSFORMS_css. destruct (negb _); [done|]. rewrite bind_cache_has.
  destruct (bool_decide _) eqn:Hhit; [by apply stored_after_hit|].
  cbn zeta. intros Hrun.
  apply bind_inv_ok in Hrun as (code & s1 & _ & Hrun).
  apply bind_inv_ok in Hrun as (code1 & s2 & _ & Hrun).
  by apply stored_after_write in Hrun.
Qed.

Lemma pipeline_stored (k : pipeline) (c : ctx) (st st' : state) (r : presult) :
  keeps_results k = true →
  run_pipeline k c st = (Ok r, st') →
  ∃ body, r = PContent body ∧ WRITE_CACHE st' !! c_id c = Some body.
Proof.
  destruct k; try done; intros _; cbn [run_pipeline].
  - apply cssModule_stored.
  - apply js_stored.
  - apply css_stored.
Qed.

Lemma pipeline_hit (k : pipeline) (c : ctx) (st : state) (body : string) :
  keeps_results k = true → past_guard k c →
  WRITE_CACHE st !! c_id c = Some body →
  run_pipeline k c st =
    (Ok (PContent body), match k with Css => st | _ => record js_header st end).
Proof.
  destruct k; try done; intros _ Hguard Hb; cbn [run_pipeline].
  - by apply cssModule_hit.
  - by apply js_hit.
  - apply css_hit; [|done]. apply test_module_css. by apply Hguard.
Qed.

End Pipelines.

(* ================================================================== *)
(** ** Cache hits *)

Section CacheHit.
Import Regex RegexFacts Wmr Spec ExtFacts.
Context `{Collaborators}.

Lemma hit_quiet (k : pipeline) (st : state) :
  let st' := match k with Css => st | _ => record js_header st end in
  world st' = world st ∧ WRITE_CACHE st' = WRITE_CACHE st ∧
  background st' = background st ∧
  List.filter is_external (log st') = List.filter is_external (log st).
Proof.
  destruct k; cbn [world WRITE_CACHE background log record]; repeat split;
    by apply filter_app_nil.
Qed.

(** C2. For the three pipelines that keep their results: an entry present
    under the id is returned as it is, and the only thing done besides is
    setting the content-type header (no file read, no transpiler, no
    compiler); whatever such a pipeline returns is in the cache under the
    id when it returns; so a second request that finds the entry of the
    first still there gets the same content, with no external call, and
    responds with exactly that body. *)
Theorem C2_cache_hit (k : pipeline) (c : ctx) (st : state) :
  keeps_results k = true → past_guard k c →
  (∀ body, WRITE_CACHE st !! c_id c = Some body →
     run_pipeline k c st =
       (Ok (PContent body), match k with Css => st | _ => record js_header st end)) ∧
  (∀ r st1, run_pipeline k c st = (Ok r, st1) →
     ∃ body, r = PContent body ∧ WRITE_CACHE st1 !! c_id c = Some body) ∧
  (∀ r st1 st2,
     run_pipeline k c st = (Ok r, st1) →
     WRITE_CACHE st2 !! c_id c = WRITE_CACHE st1 !! c_id c →
     ∃ body st3,
       r = PContent body ∧
       run_pipeline k c st2 = (Ok (PContent body), st3) ∧
       world st3 = world st2 ∧ WRITE_CACHE st3 = WRITE_CACHE st2 ∧
       background st3 = background st2 ∧
       List.filter is_external (log st3) = List.filter is_external (log st2) ∧
       respond (pipeline_name k) (run_pipeline k c) st2 =
         (Ok tt, record (EvEnd body)
                   (record (EvWriteHead 200 (String.length body) (pipeline_name k) 0) st3))).
Proof.
  intros Hk Hguard. split; [|split].
  - intros body Hb. by apply pipeline_hit.
  - intros r st1. by apply pipeline_stored.
  - intros r st1 st2 Hfirst Hstill.
    destruct (pipeline_stored _ _ _ _ _ Hk Hfirst) as (body & -> & Hb).
    rewrite <- Hstill in Hb.
    pose proof (pipeline_hit k c st2 body Hk Hguard Hb) as Hsecond.
    destruct (hit_quiet k st2) as (Hw & Hc & Hbg & Hlog).
    exists body. eexists. split; [done|]. split; [exact Hsecond|].
    split; [done|]. split; [done|]. split; [done|]. split; [done|].
    rewrite (respond_content _ _ _ _ _ Hsecond). cbv zeta in Hw. rewrite Hw.
    by rewrite Z.sub_diag.
Qed.

Lemma style_ext_is_long (path : string) : has_ext style_exts path → has_long_ext path.
Proof.
  intros (e & Hin & Hend). unfold style_exts in Hin. rewrite !elem_of_cons in Hin.
  destruct Hin as [-> | [-> | [-> | Hin]]]; [| | | by apply elem_of_nil in Hin].
  - exists "css". split; [exact Hend | split; [simpl; lia | reflexivity]].
  - exists "scss". split; [exact Hend | split; [simpl; lia | reflexivity]].
  - exists "sass". split; [exact Hend | split; [simpl; lia | reflexivity]].
Qed.

Lemma handler_css_declined (cwd out : string) (req : request) (st : state) :
  let path := posix_normalize (req_path req) in
  let file := posix_join cwd path in
  Str.startsWith path "/@npm/" = false →
  has_ext style_exts path →
  select path file = Css →
  ¬ Str.ends_with path ".module.css" →
  handler cwd out req st =
    (Ok tt, record (EvNext None)
              match mime_getType file with
              | Some type => record (EvSetHeader "content-type" type) st
              | None => st
              end).
Proof.
  intros path file Hnpm Hstyle Hsel Hplain.
  unfold handler. fold path. rewrite Hnpm. fold file.
  assert (Hres : resolve_extension cwd req path file st = (Ok file, st)).
  { unfold resolve_extension.
    apply style_ext_is_long, test_long_ext in Hstyle. rewrite Hstyle.
    by rewrite andb_false_r. }
  rewrite (bind_ok _ _ _ _ _ Hres). rewrite Hsel. cbn [run_pipeline pipeline_name].
  apply test_end_Lit_false in Hplain.
  set (c := {| c_id := module_id cwd file; c_file := file; c_path := path;
               c_cwd := cwd; c_out := out |}).
  assert (Hg : ∀ s, TRANSFORMS_css c s = (Throw ThrowNull, s)).
  { intros s. by apply css_guard. }
  destruct (mime_getType file) as [type|].
  - rewrite bind_emit. by rewrite (respond_throw _ _ _ _ _ (Hg _)).
  - rewrite bind_ret. by rewrite (respond_throw _ _ _ _ _ (Hg _)).
Qed.

(** C5, as the code has it.  The stylesheet pipeline declines, by throwing
    [null] before it looks at anything, exactly the paths that do not end
    in [.module.css]; among them are the paths without a [.module.] infix.
    The handler then only calls [next()].  A path ending in [.module.css]
    is served: from the cache when the entry is there, else from the file
    through [modularizeCss], unless one of these two calls throws. *)
Theorem C5_css_only_module_css (c : ctx) (st : state) :
  (¬ Str.ends_with (c_path c) ".module.css" →
     TRANSFORMS_css c st = (Throw ThrowNull, st) ∧
     ∀ name, respond name (TRANSFORMS_css c) st = (Ok tt, record (EvNext None) st)) ∧
  (¬ has_module_infix (c_path c) → TRANSFORMS_css c st = (Throw ThrowNull, st)) ∧
  (∀ cwd out req,
     let path := posix_normalize (req_path req) in
     let file := posix_join cwd path in
     Str.startsWith path "/@npm/" = false → has_ext style_exts path →
     select path file = Css → ¬ Str.ends_with path ".module.css" →
     handler cwd out req st =
       (Ok tt, record (EvNext None)
                 match mime_getType file with
                 | Some type => record (EvSetHeader "content-type" type) st
                 | None => st
                 end)) ∧
  (Str.ends_with (c_path c) ".module.css" →
     (∀ body, WRITE_CACHE st !! c_id c = Some body →
        TRANSFORMS_css c st = (Ok (PContent body), st)) ∧
     (WRITE_CACHE st !! c_id c = None →
        let src := path_resolve (c_cwd c) (c_file c) in
        let read := fs_readFile src (world st) in
        let st1 := with_world (snd read) (record (EvReadFile src) st) in
        match fst read with
        | Throw e => TRANSFORMS_css c st = (Throw e, st1)
        | Ok code =>
            let made := modularizeCss code (c_id c) (snd read) in
            let st2 := with_world (snd made) (record (EvModularizeCss code (c_id c)) st1) in
            match fst made with
            | Throw e => TRANSFORMS_css c st = (Throw e, st2)
            | Ok css =>
                ∃ st3, TRANSFORMS_css c st = (Ok (PContent css), st3) ∧
                       WRITE_CACHE st3 = <[c_id c := css]> (WRITE_CACHE st)
            end
        end)).
Proof.
  assert (Hskip : ¬ Str.ends_with (c_path c) ".module.css" →
                  TRANSFORMS_css c st = (Throw ThrowNull, st)).
  { intros Hplain. apply css_guard. by apply test_end_Lit_false. }
  split; [|split; [|split]].
  - intros Hplain. split; [by apply Hskip|].
    intros name. by rewrite (respond_throw _ _ _ _ _ (Hskip Hplain)).
  - intros Hno. apply Hskip. intros [p Hp]. apply Hno.
    exists p, "css". by rewrite Hp.
  - intros cwd out req. apply handler_css_declined.
  - intros Hscoped. apply test_module_css in Hscoped. split.
    + intros body Hb. by apply css_hit.
    + intros Hb. cbv zeta.
      destruct (fs_readFile _ (world st)) as [[code|e] w1] eqn:Hread; cbn [fst snd].
      * destruct (modularizeCss code (c_id c) w1) as [[css|e] w2] eqn:Hmade; cbn [fst snd].
        -- by apply (css_miss c st code css w1 w2).
        -- unfold TRANSFORMS_css. rewrite Hscoped. cbn [negb].
           rewrite bind_cache_has, Hb, bool_decide_eq_false_2 by (by intros [? ?]).
           cbv iota zeta. rewrite (bind_call_ok _ _ _ _ _ _ Hread).
           by rewrite (bind_call_throw _ _ _ (with_world w1 (record _ st)) _ _ Hmade).
      * unfold TRANSFORMS_css. rewrite Hscoped. cbn [negb].
        rewrite bind_cache_has, Hb, bool_decide_eq_false_2 by (by intros [? ?]).
        cbv iota zeta. by rewrite (bind_call_throw _ _ _ _ _ _ Hread).
Qed.

End CacheHit.

(* ================================================================== *)
(** ** The mirror write *)

Section Mirror.
Import Regex RegexFacts Wmr Spec ExtFacts.
Context `{Collaborators}.

Lemma call_inv_ok {A} (e : event) (f : World → result A * World) (st st1 : state) (a : A) :
  call e f st = (Ok a, st1) →
  ∃ w, f (world st) = (Ok a, w) ∧ st1 = with_world w (record e st).
Proof.
  unfold call. destruct (f (world st)) as [r w]. intros [= -> <-]. eauto.
Qed.

Lemma call_cache {A} (e : event) (f : World → result A * World) (st : state) :
  WRITE_CACHE (snd (call e f st)) = WRITE_CACHE st.
Proof. unfold call. by destruct (f (world st)) as [r w]. Qed.

Lemma bind_cache {A B} (m : M A) (k : A → M B) (st : state) :
  (∀ s, WRITE_CACHE (snd (m s)) = WRITE_CACHE s) →
  (∀ a s, WRITE_CACHE (snd (k a s)) = WRITE_CACHE s) →
  WRITE_CACHE (snd ((x <- m ;; k x) st)) = WRITE_CACHE st.
Proof.
  intros Hm Hk. unfold bind. specialize (Hm st).
  destruct (m st) as [[a|e] s1]; cbn [snd] in *; [by rewrite Hk | done].
Qed.

Lemma run_mirror_cache (m : mirror) (st : state) :
  WRITE_CACHE (snd (run_mirror m st)) = WRITE_CACHE st.
Proof.
  unfold run_mirror. apply bind_cache.
  - intros s. destruct (m_mkdir m) as [dir|]; [apply call_cache | done].
  - intros _ s. apply call_cache.
Qed.

Lemma settle_cache (st : state) : WRITE_CACHE (settle st) = WRITE_CACHE st.
Proof.
  unfold settle. destruct (background st) as [|m rest]; [done|].
  by rewrite run_mirror_cache.
Qed.

Lemma settle_iter_cache (n : nat) (st : state) :
  WRITE_CACHE (Nat.iter n settle st) = WRITE_CACHE st.
Proof. induction n as [|n IH]; [done|]. cbn [Nat.iter nat_rect]. by rewrite settle_cache. Qed.

Lemma js_miss_state (c : ctx) (st st' : state) (code : string) :
  WRITE_CACHE st !! c_id c = None →
  TRANSFORMS_js c st = (Ok (PContent code), st') →
  ∃ m, background st' = background st ++ [m] ∧
       m_file m = path_resolve (c_out c) (c_id c) ∧ m_data m = code ∧
       List.filter is_mirror_io (log st') = List.filter is_mirror_io (log st) ∧
       WRITE_CACHE st' !! c_id c = Some code.
Proof.
  intros Hb. unfold TRANSFORMS_js. rewrite bind_emit, bind_cache_has.
  cbn [WRITE_CACHE record]. rewrite Hb, bool_decide_eq_false_2 by (by intros [? ?]).
  cbv iota zeta. intros Hrun.
  apply bind_inv_ok in Hrun as (c1 & s1 & (w1 & _ & ->)%call_inv_ok & Hrun).
  apply bind_inv_ok in Hrun as (c2 & s2 & (w2 & _ & ->)%call_inv_ok & Hrun).
  apply bind_inv_ok in Hrun as (c3 & s3 & (w3 & _ & ->)%call_inv_ok & Hrun).
  rewrite (bind_ok _ _ _ _ _ (writeCacheFile_eq _ _ _ _)) in Hrun.
  injection Hrun as <- <-. eexists. split; [reflexivity|].
  cbn [m_file m_data log WRITE_CACHE with_background with_cache with_world record].
  split; [done|]. split; [done|]. split; [|apply lookup_insert_eq].
  rewrite !List.filter_app. cbn. by rewrite !List.app_nil_r.
Qed.

(** C8. [writeCacheFile] sets the entry before anything else: when the
    call comes back the entry is there, no file-system operation of the
    mirror has settled, and the directory creation and file write are left
    pending.  Running the pending writes, whether they succeed or throw,
    never changes the cache.  A module request that missed the cache returns its code with
    the write still pending and the entry in place, and the entry stays
    whatever happens to the pending writes. *)
Theorem C8_memory_before_mirror (out id data : string) (st : state) :
  let st1 := snd (writeCacheFile out id data st) in
  (fst (writeCacheFile out id data st) = Ok tt ∧
   cache_get id st1 = (Ok (Some data), st1) ∧
   log st1 = log st ∧ world st1 = world st ∧
   ∃ m, background st1 = background st ++ [m] ∧
        m_file m = path_resolve out id ∧ m_data m = data) ∧
  (∀ m s, WRITE_CACHE (snd (run_mirror m s)) = WRITE_CACHE s) ∧
  (∀ n, WRITE_CACHE (Nat.iter n settle st1) !! id = Some data) ∧
  (∀ c s s' code,
     WRITE_CACHE s !! c_id c = None →
     TRANSFORMS_js c s = (Ok (PContent code), s') →
     (∃ m, background s' = background s ++ [m] ∧ m_data m = code) ∧
     List.filter is_mirror_io (log s') = List.filter is_mirror_io (log s) ∧
     ∀ n, WRITE_CACHE (Nat.iter n settle s') !! c_id c = Some code).
Proof.
  intros st1. subst st1. rewrite writeCacheFile_eq. cbn [fst snd].
  split; [|split; [|split]].
  - split; [done|]. split.
    + unfold cache_get. cbn [WRITE_CACHE with_background with_cache].
      by rewrite lookup_insert_eq.
    + split; [done|]. split; [done|]. eexists. split; [reflexivity|]. done.
  - apply run_mirror_cache.
  - intros n. rewrite settle_iter_cache.
    cbn [WRITE_CACHE with_background with_cache]. apply lookup_insert_eq.
  - intros c s s' code Hmiss Hrun.
    destruct (js_miss_state c s s' code Hmiss Hrun) as (m & Hbg & _ & Hdata & Hlog & Hentry).
    split; [eauto|]. split; [done|]. intros n. by rewrite settle_iter_cache.
Qed.

End Mirror.

(* ================================================================== *)
(** ** The debounced change notification *)

Section Debounce.
Import Wmr Spec.
Context `{Collaborators}.

Lemma set_add_nonempty (x : string) (s : list string) : set_add x s ≠ [].
Proof.
  unfold set_add. case_decide as Hin.
  - intros ->. by apply elem_of_nil in Hin.
  - by destruct s.
Qed.

Lemma elem_of_set_add (p x : string) (s : list string) : p ∈ set_add x s ↔ p = x ∨ p ∈ s.
Proof.
  unfold set_add. case_decide as Hin.
  - split; [auto | intros [-> | ?]; done].
  - rewrite elem_of_app, list_elem_of_singleton. tauto.
Qed.

Lemma NoDup_set_add (x : string) (s : list string) : NoDup s → NoDup (set_add x s).
Proof.
  intros Hs. unfold set_add. case_decide as Hin; [done|].
  apply NoDup_app. split; [done|]. split; [|apply NoDup_singleton].
  intros y Hy ->%list_elem_of_singleton. done.
Qed.

Lemma elem_of_add_all (p : string) (paths s : list string) :
  p ∈ add_all s paths ↔ p ∈ s ∨ p ∈ paths.
Proof.
  revert s. induction paths as [|x paths IH]; intros s; cbn [add_all foldl].
  - rewrite elem_of_nil. tauto.
  - fold (add_all (set_add x s) paths). rewrite IH, elem_of_set_add, elem_of_cons. tauto.
Qed.

Lemma NoDup_add_all (paths s : list string) : NoDup s → NoDup (add_all s paths).
Proof.
  revert s. induction paths as [|x paths IH]; intros s Hs; [done|].
  cbn [add_all foldl]. apply IH. by apply NoDup_set_add.
Qed.

Lemma notifications_record (e : event) (st : state) :
  notifications (record e st) =
    notifications st ++ match e with EvOnChange changes _ => [changes] | _ => [] end.
Proof.
  unfold notifications. cbn [log record]. rewrite omap_app. by destruct e.
Qed.

Lemma on_change_pending (cwd filename : string) (st : state) :
  pendingChanges (on_change cwd filename st) =
    set_add ("/" +:+ to_posix filename) (pendingChanges st).
Proof.
  unfold on_change. cbn zeta.
  by destruct (Regex.test_end re_module_css _), (Nat.eqb _ 0).
Qed.

Lemma on_change_timers (cwd filename : string) (st : state) :
  timers (on_change cwd filename st) =
    match pendingChanges st with [] => timers st ++ [60] | _ => timers st end.
Proof.
  unfold on_change. cbn zeta. cbn [pendingChanges with_world record].
  by destruct (Regex.test_end re_module_css _), (pendingChanges st).
Qed.

Lemma on_change_notifications (cwd filename : string) (st : state) :
  notifications (on_change cwd filename st) = notifications st.
Proof.
  unfold on_change. cbn zeta.
  destruct (Regex.test_end re_module_css _), (Nat.eqb _ 0);
    unfold notifications; cbn [log with_cache with_pending with_timers with_world record];
    by rewrite omap_app, app_nil_r.
Qed.

Lemma tick_idle (st : state) :
  timers st = [] →
  timers (tick st) = [] ∧ pendingChanges (tick st) = pendingChanges st ∧
  notifications (tick st) = notifications st.
Proof. intros Ht. unfold tick. rewrite Ht. cbn. by rewrite Ht. Qed.

Lemma tick_wait (st : state) (n : nat) :
  timers st = [n] → 1 < n →
  timers (tick st) = [n - 1] ∧ pendingChanges (tick st) = pendingChanges st ∧
  notifications (tick st) = notifications st.
Proof.
  intros Ht Hn. unfold tick. rewrite Ht.
  rewrite filter_cons_False, filter_nil by lia. cbn [foldl timers with_timers].
  rewrite Ht, filter_cons_True, filter_nil by lia.
  repeat split. cbn. f_equal. lia.
Qed.

Lemma tick_fire (st : state) (n : nat) :
  timers st = [n] → n ≤ 1 →
  timers (tick st) = [] ∧ pendingChanges (tick st) = [] ∧
  notifications (tick st) = notifications st ++ [pendingChanges st].
Proof.
  intros Ht Hn. unfold tick. rewrite Ht.
  rewrite filter_cons_True, filter_nil by lia. cbn [foldl]. unfold flushChanges.
  cbn [timers pendingChanges with_timers with_pending record].
  rewrite Ht, filter_cons_False, filter_nil by lia.
  repeat split. unfold notifications.
  cbn [log with_pending with_timers record]. by rewrite omap_app.
Qed.

Lemma armed_step (cwd : string) (e : wevent) (st : state) :
  armed st → armed (wstep cwd st e).
Proof.
  intros Harmed. destruct e as [filename|]; cbn [wstep].
  - right. rewrite on_change_pending, on_change_timers.
    split; [apply set_add_nonempty|].
    destruct Harmed as [[-> ->] | [Hne (n & -> & Hn)]].
    + exists 60. split; [done | lia].
    + exists n. by destruct (pendingChanges st).
  - destruct Harmed as [[Hp Ht] | [Hne (n & Ht & Hn)]].
    + left. destruct (tick_idle st Ht) as (-> & -> & _). done.
    + destruct (decide (n ≤ 1)) as [Hfire | Hwait].
      * left. by destruct (tick_fire st n Ht Hfire) as (-> & -> & _).
      * right. destruct (tick_wait st n Ht) as (-> & -> & _); [lia|].
        split; [done|]. exists (n - 1). split; [done | lia].
Qed.

Lemma armed_run (cwd : string) (evs : list wevent) (st : state) :
  armed st → armed (wrun cwd evs st).
Proof.
  revert st. induction evs as [|e evs IH]; intros st Harmed; [done|].
  cbn [wrun foldl]. apply IH. by apply armed_step.
Qed.

(** Inside a window: the timer runs down, nothing is sent, and every
    change joins the pending set. *)
Lemma window (cwd : string) (evs : list wevent) (st : state) (n : nat) :
  pendingChanges st ≠ [] → timers st = [n] → ticks evs < n →
  timers (wrun cwd evs st) = [n - ticks evs] ∧
  notifications (wrun cwd evs st) = notifications st ∧
  pendingChanges (wrun cwd evs st) = add_all (pendingChanges st) (web_path <$> changed evs).
Proof.
  revert st n. induction evs as [|[filename|] evs IH]; intros st n Hne Ht Hlt.
  - cbn. rewrite Nat.sub_0_r. done.
  - cbn [wrun foldl wstep]. fold (wrun cwd evs (on_change cwd filename st)).
    destruct (IH (on_change cwd filename st) n) as (-> & -> & ->).
    + rewrite on_change_pending. apply set_add_nonempty.
    + rewrite on_change_timers. by destruct (pendingChanges st).
    + exact Hlt.
    + rewrite on_change_notifications, on_change_pending. done.
  - cbn [wrun foldl wstep]. fold (wrun cwd evs (tick st)).
    change (ticks (Tick :: evs)) with (S (ticks evs)) in *.
    destruct (tick_wait st n Ht) as (Ht' & Hp' & Hn'); [lia|].
    destruct (IH (tick st) (n - 1)) as (-> & -> & ->).
    + by rewrite Hp'.
    + done.
    + lia.
    + rewrite Hn', Hp'. repeat split. f_equal. lia.
Qed.

Lemma ticks_app (evs1 evs2 : list wevent) : ticks (evs1 ++ evs2) = ticks evs1 + ticks evs2.
Proof. unfold ticks. by rewrite List.filter_app, List.length_app. Qed.

(** C9. From a watcher with nothing pending, a change starts one timer of
    60ms.  Until it runs out no notification is sent and there is exactly
    one timer, however many changes arrive.  When it runs out, exactly one
    notification is sent; it holds the web paths of all the changes of the
    window, each once; the pending set is empty and no timer is left.  At
    all times there is one timer when something is pending and none
    otherwise. *)
Theorem C9_one_notification_per_window
    (cwd : string) (st : state) (filename : string) (evs : list wevent) :
  pendingChanges st = [] → timers st = [] → ticks evs = 59 →
  let opened := on_change cwd filename st in
  let flushed := tick (wrun cwd evs opened) in
  let paths := web_path <$> (filename :: changed evs) in
  timers opened = [60] ∧
  (∀ evs1 evs2, evs = evs1 ++ evs2 →
     notifications (wrun cwd evs1 opened) = notifications st ∧
     timers (wrun cwd evs1 opened) = [60 - ticks evs1]) ∧
  (∃ batch, notifications flushed = notifications st ++ [batch] ∧
            NoDup batch ∧ ∀ p, p ∈ batch ↔ p ∈ paths) ∧
  pendingChanges flushed = [] ∧ timers flushed = [] ∧
  (∀ more, armed (wrun cwd more flushed)).
Proof.
  intros Hp Ht Hticks opened flushed paths.
  assert (Hop : pendingChanges opened = [web_path filename]).
  { subst opened. rewrite on_change_pending, Hp. reflexivity. }
  assert (Hot : timers opened = [60]).
  { subst opened. rewrite on_change_timers, Hp, Ht. reflexivity. }
  assert (Hon : notifications opened = notifications st).
  { apply on_change_notifications. }
  assert (Hne : pendingChanges opened ≠ []) by (by rewrite Hop).
  destruct (window cwd evs opened 60 Hne Hot) as (Hwt & Hwn & Hwp); [lia|].
  rewrite Hticks in Hwt. change (60 - 59) with 1 in Hwt.
  destruct (tick_fire (wrun cwd evs opened) 1 Hwt) as (Hft & Hfp & Hfn); [lia|].
  fold flushed in Hft, Hfp, Hfn.
  split; [done|]. split; [|split; [|split; [|split]]]; try done.
  - intros evs1 evs2 ->. rewrite ticks_app in Hticks.
    destruct (window cwd evs1 opened 60 Hne Hot) as (-> & -> & _); [lia|]. done.
  - exists (pendingChanges (wrun cwd evs opened)).
    split; [by rewrite Hfn, Hwn, Hon|]. rewrite Hwp, Hop. split.
    + apply NoDup_add_all, NoDup_singleton.
    + intros p. subst paths. rewrite elem_of_add_all, fmap_cons, !elem_of_cons, elem_of_nil.
      tauto.
  - intros more. apply armed_run. by left.
Qed.

End Debounce.

(* ================================================================== *)
(** ** The theorems at work on the small project *)

Section Runs.
Import Regex RegexFacts Wmr Spec ExtFacts.
#[local] Existing Instance Demo.collaborators.

(** A change of [src/index.js] leaves the entries of the stylesheet alone. *)
Lemma C10_change_frame_witness :
  let st := Demo.after (Demo.get "/src/style.module.css.js") Demo.start in
  let st' := on_change Demo.cwd "src/index.js" st in
  WRITE_CACHE st' !! "src/style.module.css.js" = WRITE_CACHE st !! "src/style.module.css.js" ∧
  WRITE_CACHE st' = delete "src/index.js" (WRITE_CACHE st).
Proof.
  intros st st'.
  destruct (C10_change_frame Demo.cwd "src/index.js" st) as (Hdel & Hframe & _).
  assert (Hplain : ¬ Str.ends_with (to_posix "src/index.js") ".module.css").
  { apply test_end_Lit_false. reflexivity. }
  split; [|exact (Hdel Hplain)].
  refine (Hframe Hplain "src/style.module.css.js" _). by vm_compute.
Defined.

(** The second request for [src/index.js] returns the bytes of the first,
    although the transpiler would stamp them differently now, and calls
    nothing outside. *)
Lemma C2_cache_hit_witness :
  let st1 := snd (TRANSFORMS_js Demo.index_js Demo.start) in
  fst (TRANSFORMS_js Demo.index_js st1) = fst (TRANSFORMS_js Demo.index_js Demo.start) ∧
  world (snd (TRANSFORMS_js Demo.index_js st1)) = world st1 ∧
  fst (NonRollup_transform "import pad from 'left-pad'" "src/index.js" (world st1))
    ≠ fst (NonRollup_transform "import pad from 'left-pad'" "src/index.js" 1).
Proof.
  intros st1.
  destruct (C2_cache_hit Js Demo.index_js Demo.start eq_refl) as (_ & _ & Htwice).
  { intros [=]. }
  destruct (Htwice (PContent "/*1*/import pad from 'left-pad'") st1 st1 eq_refl eq_refl)
    as (body & st3 & [= <-] & Hrun & Hworld & _).
  change (run_pipeline Js Demo.index_js st1) with (TRANSFORMS_js Demo.index_js st1) in Hrun.
  rewrite Hrun. split; [reflexivity|]. split; [exact Hworld|]. by vm_compute.
Defined.

(** A plain stylesheet is left to the next handler; the scoped one is
    served. *)
Lemma C5_css_only_module_css_witness :
  handler Demo.cwd Demo.out (Demo.get "/src/theme.css") Demo.start =
    (Ok tt, record (EvNext None) (record (EvSetHeader "content-type" "text/css") Demo.start)) ∧
  ∃ st', TRANSFORMS_css
           {| c_id := "src/style.module.css"; c_file := "/proj/src/style.module.css";
              c_path := "/src/style.module.css"; c_cwd := Demo.cwd; c_out := Demo.out |}
           Demo.start = (Ok (PContent "/*1*/.title { color: red }"), st').
Proof.
  split.
  - destruct (C5_css_only_module_css Demo.index_js Demo.start) as (_ & _ & Hhandler & _).
    apply (Hhandler Demo.cwd Demo.out (Demo.get "/src/theme.css")).
    + reflexivity.
    + apply test_style_ext. reflexivity.
    + reflexivity.
    + apply test_end_Lit_false. reflexivity.
  - pose (c := {| c_id := "src/style.module.css"; c_file := "/proj/src/style.module.css";
                  c_path := "/src/style.module.css"; c_cwd := Demo.cwd; c_out := Demo.out |}).
    destruct (C5_css_only_module_css c Demo.start) as (_ & _ & _ & Hserved).
    destruct Hserved as [_ Hmiss]; [apply test_module_css; reflexivity|].
    destruct (Hmiss eq_refl) as (st3 & Hrun & _). eauto.
Defined.

(** C5 as the specification words it fails on [/src/a.module.scss]: the
    path has the [.module.] infix before its stylesheet extension and is
    dispatched to the stylesheet pipeline, which throws [null]; the handler
    calls [next()] and nothing is served. *)
Lemma C5_module_scss_counterexample :
  let c := {| c_id := "src/a.module.scss"; c_file := "/proj/src/a.module.scss";
              c_path := "/src/a.module.scss"; c_cwd := Demo.cwd; c_out := Demo.out |} in
  module_infix_before_ext (c_path c) ∧
  select (c_path c) (c_file c) = Css ∧
  TRANSFORMS_css c Demo.start = (Throw ThrowNull, Demo.start) ∧
  handler Demo.cwd Demo.out (Demo.get "/src/a.module.scss") Demo.start =
    (Ok tt, record (EvNext None) Demo.start).
Proof.
  intros c. split; [|by vm_compute].
  exists ".scss". split; [in_list|]. by exists "/src/a".
Qed.

(** The output directory of the small project cannot be written: the
    mirror write throws, and the entry is still there. *)
Lemma C8_memory_before_mirror_witness :
  let st1 := snd (TRANSFORMS_js Demo.index_js Demo.start) in
  fst (fs_writeFile ".dist/src/index.js" "/*1*/import pad from 'left-pad'" (world st1))
    = Throw (ThrowValue "EACCES") ∧
  List.filter is_mirror_io (log st1) = [] ∧
  List.filter is_mirror_io (log (settle st1)) =
    [EvMkdir ".dist/src"; EvWriteFile ".dist/src/index.js" "/*1*/import pad from 'left-pad'"] ∧
  WRITE_CACHE (settle st1) !! "src/index.js" = Some "/*1*/import pad from 'left-pad'".
Proof.
  intros st1. split; [reflexivity|].
  destruct (C8_memory_before_mirror Demo.out "src/index.js" EmptyString Demo.start)
    as (_ & _ & _ & Hjs).
  destruct (Hjs Demo.index_js Demo.start st1 "/*1*/import pad from 'left-pad'" eq_refl eq_refl)
    as (_ & Hlog & Hentry).
  split; [exact Hlog|]. split; [reflexivity|]. exact (Hentry 1).
Defined.

(** Two files change, one of them twice, within 59ms; the 60th millisecond
    sends one notification with the two paths. *)
Lemma C9_one_notification_per_window_witness :
  let evs := [Tick; Change "src/b.js"; Change "src/a.js"] ++ repeat Tick 58 in
  let flushed := tick (wrun Demo.cwd evs (on_change Demo.cwd "src/a.js" Demo.start)) in
  notifications flushed = [["/src/a.js"; "/src/b.js"]] ∧
  pendingChanges flushed = [] ∧ timers flushed = [].
Proof.
  intros evs flushed.
  destruct (C9_one_notification_per_window Demo.cwd Demo.start "src/a.js" evs
              eq_refl eq_refl eq_refl) as (_ & _ & _ & Hp & Ht & _).
  split; [by vm_compute|]. split; [exact Hp | exact Ht].
Defined.

End Runs.

(* ================================================================== *)
(** ** More on paths and specifiers *)

Section PathsAndSpecifiers.
Import Str StrFacts Regex RegexFacts Wmr Spec ExtFacts.
Context `{Collaborators}.

Lemma split_nonempty (sep : ascii) (s : string) : split sep s ≠ [].
Proof.
  induction s as [|a s IH]; cbn [split]; [done|].
  destruct (Ascii.eqb a sep); [done|]. by destruct (split sep s).
Qed.

Lemma join_split_chars (sep : ascii) (s : string) :
  list_ascii_of_string (join "/" (split sep s)) = slash_for sep <$> list_ascii_of_string s.
Proof.
  induction s as [|a s IH]; [done|].
  cbn [split list_ascii_of_string fmap list_fmap]. unfold slash_for at 1.
  pose proof (split_nonempty sep s) as Hne.
  destruct (Ascii.eqb a sep).
  - destruct (split sep s) as [|h t] eqn:Hs; [done|].
    change (join "/" (EmptyString :: h :: t)) with (String "/" (join "/" (h :: t))).
    cbn [list_ascii_of_string]. by rewrite IH.
  - destruct (split sep s) as [|h t] eqn:Hs; [done|].
    assert (Hj : join "/" (String a h :: t) = String a (join "/" (h :: t))).
    { by destruct t. }
    rewrite Hj. cbn [list_ascii_of_string]. by rewrite IH.
Qed.

Lemma chars_inj (s t : string) : list_ascii_of_string s = list_ascii_of_string t → s = t.
Proof.
  intros Heq. rewrite <- (string_of_list_ascii_of_string s), <- (string_of_list_ascii_of_string t).
  by rewrite Heq.
Qed.

Lemma length_chars (s : string) : String.length s = List.length (list_ascii_of_string s).
Proof. induction s as [|a s IH]; [done|]. simpl. by rewrite IH. Qed.

(** X1. [filename.split(sep).join('/')] replaces every separator by a
    slash and keeps every other character: the length is kept, with the
    POSIX separator the name is left as it is, and a second pass changes
    nothing. *)
Theorem X1_to_posix_chars (filename : string) :
  list_ascii_of_string (to_posix filename) =
    slash_for path_sep <$> list_ascii_of_string filename ∧
  String.length (to_posix filename) = String.length filename ∧
  (path_sep = "/"%char → to_posix filename = filename) ∧
  to_posix (to_posix filename) = to_posix filename.
Proof.
  assert (Hchars : ∀ f, list_ascii_of_string (to_posix f) =
                        slash_for path_sep <$> list_ascii_of_string f).
  { intros f. apply join_split_chars. }
  assert (Hidem : to_posix (to_posix filename) = to_posix filename).
  { apply chars_inj. rewrite !Hchars, <- list_fmap_compose.
    apply list_fmap_ext. intros _ c _. unfold compose, slash_for.
    destruct (Ascii.eqb_spec c path_sep) as [-> | Hne].
    - by destruct (Ascii.eqb "/" path_sep).
    - by rewrite (proj2 (Ascii.eqb_neq c path_sep) Hne). }
  split; [apply Hchars|]. split; [|split].
  - by rewrite !length_chars, Hchars, length_fmap.
  - intros Hsep. apply chars_inj. rewrite Hchars, Hsep.
    rewrite <- (list_fmap_id (list_ascii_of_string filename)) at 2.
    apply list_fmap_ext. intros _ c _. unfold slash_for.
    by destruct (Ascii.eqb_spec c "/") as [-> | Hne].
  - exact Hidem.
Qed.

Lemma remove_end_Lit_app (w s : string) : remove_end (Lit w) (s +:+ w) = s.
Proof.
  induction s as [|a s IH].
  - rewrite app_nil_l. destruct w as [|b w]; cbn [remove_end].
    + reflexivity.
    + assert (Hm : matches (Lit (String b w)) (String b w) = true).
      { apply matches_lang, lang_Lit. done. }
      by rewrite Hm.
  - rewrite app_cons. cbn [remove_end].
    destruct (matches (Lit w) (String a (s +:+ w))) eqn:Hm.
    + apply matches_lang, lang_Lit in Hm. apply (f_equal String.length) in Hm.
      cbn [String.length] in Hm. rewrite length_app in Hm. lia.
    + by rewrite IH.
Qed.

Lemma remove_end_Lit_other (w s : string) : ¬ ends_with s w → remove_end (Lit w) s = s.
Proof.
  induction s as [|a s IH]; intros Hno.
  - cbn [remove_end]. destruct (matches (Lit w) EmptyString) eqn:Hm; [|done].
    apply matches_lang, lang_Lit in Hm as <-. destruct Hno. apply ends_with_refl.
  - cbn [remove_end]. destruct (matches (Lit w) (String a s)) eqn:Hm.
    + apply matches_lang, lang_Lit in Hm as <-. destruct Hno. apply ends_with_refl.
    + rewrite IH; [done|]. intros [p ->]. apply Hno. by exists (String a p).
Qed.

Lemma css_not_wmr (spec : string) :
  ends_with spec ".css" → spec ≠ "wmr" ∧ 3 ≤ String.length spec.
Proof.
  intros [p ->]. split.
  - intros Heq. apply (f_equal String.length) in Heq.
    rewrite length_app in Heq. simpl in Heq. lia.
  - rewrite length_app. simpl. lia.
Qed.

(** X2. [file.replace(/\.js$/, '')] of the proxy pipeline undoes the
    [.js] that [resolveId] appends: a name with [.js] appended is cut back
    to the name, a name not ending in [.js] is left alone, and for a
    relative or absolute specifier ending in [.css] the cut applied to what
    [resolveId] returns gives the specifier back. *)
Theorem X2_proxy_suffix_round_trip (s : string) :
  remove_end re_js (s +:+ ".js") = s ∧
  (¬ ends_with s ".js" → remove_end re_js s = s) ∧
  (relative_or_absolute s → ends_with s ".css" → remove_end re_js (resolveId s) = s).
Proof.
  split; [apply remove_end_Lit_app|]. split; [apply remove_end_Lit_other|].
  intros Hrel Hcss. destruct (css_not_wmr s Hcss) as [Hne Hlen].
  rewrite resolveId_unfold by done.
  apply endsWith_spec in Hcss. rewrite Hcss. cbn zeta.
  apply (relative_or_absolute_app s ".js" Hlen), test_rel_or_abs in Hrel. rewrite Hrel.
  apply remove_end_Lit_app.
Qed.

Lemma resolveId_shape (spec : string) :
  resolveId spec = "/_wmr.js" ∨
  (relative_or_absolute (resolveId spec) ∧
   (resolveId spec = spec ∨ resolveId spec = spec +:+ ".js")) ∨
  (∃ spec', resolveId spec = "/@npm/" +:+ spec' ∧ (spec' = spec ∨ spec' = spec +:+ ".js")).
Proof.
  destruct (String.eqb_spec spec "wmr") as [-> | Hne]; [by left|].
  right. rewrite resolveId_unfold by done. cbn zeta.
  destruct (endsWith spec ".css"); destruct (test_start re_rel_or_abs _) eqn:Ht.
  - left. split; [by apply test_rel_or_abs | by right].
  - right. eauto.
  - left. split; [by apply test_rel_or_abs | by left].
  - right. eauto.
Qed.

(** X3. Whatever the specifier, what [resolveId] returns starts with [./],
    [../] or [/]: no bare specifier is left in the code sent to the
    browser. *)
Theorem X3_resolveId_never_bare (spec : string) : relative_or_absolute (resolveId spec).
Proof.
  destruct (resolveId_shape spec) as [-> | [[Hrel _] | (spec' & -> & _)]].
  - right. right. by exists "_wmr.js".
  - done.
  - right. right. by exists ("@npm/" +:+ spec').
Qed.

(** C1. After the watcher's [change] listener ran for a file, the cache
    has no entry under the file's module id, which is the name the watcher
    gave with every [path.sep] turned into a forward slash (on POSIX, the
    name itself); so the next [WRITE_CACHE.has] and the next [isCached] of
    a file with this id answer [false].  When the id ends in [.module.css],
    the same holds for the id with [.js] appended, the id of the proxy
    module. *)
Theorem C1_change_invalidates (cwd filename : string) (st : state) :
  let id := watched_id filename in
  let st' := on_change cwd filename st in
  (WRITE_CACHE st' !! id = None ∧ cache_has id st' = (Ok false, st')) ∧
  (path_sep = "/"%char → WRITE_CACHE st' !! filename = None) ∧
  (∀ file, module_id cwd file = id → isCached cwd file st' = (Ok false, st')) ∧
  (ends_with id ".module.css" →
     WRITE_CACHE st' !! (id +:+ ".js") = None ∧
     cache_has (id +:+ ".js") st' = (Ok false, st')).
Proof.
  intros id st'. subst id st'.
  assert (Hkey : to_posix filename = watched_id filename).
  { apply chars_inj. unfold watched_id, to_posix.
    by rewrite join_split_chars, list_ascii_of_string_of_list_ascii. }
  rewrite <- Hkey.
  destruct (on_change_deletes cwd filename st) as (Hid & Hfile & Hjs).
  split; [exact Hid|]. split; [|split; [exact Hfile | exact Hjs]].
  intros Hsep.
  assert (Hsame : to_posix filename = filename).
  { apply chars_inj. unfold to_posix. rewrite join_split_chars, Hsep.
    rewrite <- (list_fmap_id (list_ascii_of_string filename)) at 2.
    apply list_fmap_ext. intros _ c _. unfold slash_for.
    by destruct (Ascii.eqb_spec c "/") as [-> | Hne]. }
  destruct Hid as [Hid _]. by rewrite Hsame in Hid.
Qed.

End PathsAndSpecifiers.

Section InvalidationRuns.
Import Str StrFacts Regex RegexFacts Wmr Spec ExtFacts.

(** On win32, after the proxy module of a scoped stylesheet was served, a
    change reported as [src\style.module.css] removes the entries under
    [src/style.module.css] and [src/style.module.css.js]. *)
Lemma C1_change_invalidates_witness :
  let st := snd (handler (H := Demo.win32) Demo.cwd Demo.out
                   (Demo.get "/src/style.module.css.js") (init (H := Demo.win32) 0)) in
  let st' := on_change (H := Demo.win32) Demo.cwd "src\style.module.css" st in
  (is_Some (WRITE_CACHE st !! "src/style.module.css") ∧
   is_Some (WRITE_CACHE st !! "src/style.module.css.js")) ∧
  WRITE_CACHE st' !! "src/style.module.css" = None ∧
  WRITE_CACHE st' !! "src/style.module.css.js" = None.
Proof.
  intros st st'. split; [split; vm_compute; eauto|].
  destruct (C1_change_invalidates (H := Demo.win32) Demo.cwd "src\style.module.css" st)
    as ((Hid & _) & _ & _ & Hjs).
  split; [exact Hid|]. apply Hjs. apply test_module_css. reflexivity.
Defined.

End InvalidationRuns.

(* ================================================================== *)
(** ** What code appends to the log, and what it leaves alone *)

Section Effects.
Import Regex RegexFacts Wmr Spec ExtFacts.
Context `{Collaborators}.

Lemma emits_ret {A} (P : event → bool) (a : A) : emits_only P (ret a).
Proof. intros st. exists []. by rewrite List.app_nil_r. Qed.

Lemma emits_throw {A} (P : event → bool) (e : thrown) : emits_only P (throw (A := A) e).
Proof. intros st. exists []. by rewrite List.app_nil_r. Qed.

Lemma emits_bind {A B} (P : event → bool) (m : M A) (k : A → M B) :
  emits_only P m → (∀ a, emits_only P (k a)) → emits_only P (x <- m ;; k x).
Proof.
  intros Hm Hk st. destruct (Hm st) as (l1 & Hl1 & Hp1). unfold bind.
  destruct (m st) as [[a|e] st1]; cbn [snd] in *.
  - destruct (Hk a st1) as (l2 & Hl2 & Hp2). exists (l1 ++ l2).
    rewrite Hl2, Hl1, List.app_assoc. split; [done|].
    rewrite List.forallb_app, Hp1, Hp2. done.
  - eauto.
Qed.

Lemma emits_try_catch {A} (P : event → bool) (m : M A) (h : thrown → M A) :
  emits_only P m → (∀ e, emits_only P (h e)) → emits_only P (try_catch m h).
Proof.
  intros Hm Hh st. destruct (Hm st) as (l1 & Hl1 & Hp1). unfold try_catch.
  destruct (m st) as [[a|e] st1]; cbn [snd] in *.
  - eauto.
  - destruct (Hh e st1) as (l2 & Hl2 & Hp2). exists (l1 ++ l2).
    rewrite Hl2, Hl1, List.app_assoc. split; [done|].
    rewrite List.forallb_app, Hp1, Hp2. done.
Qed.

Lemma emits_emit (P : event → bool) (e : event) : P e = true → emits_only P (emit e).
Proof. intros He st. exists [e]. cbn. by rewrite He. Qed.

Lemma emits_call {A} (P : event → bool) (e : event) (f : World → result A * World) :
  P e = true → emits_only P (call e f).
Proof.
  intros He st. exists [e]. unfold call. destruct (f (world st)) as [r w].
  cbn. by rewrite He.
Qed.

Lemma emits_cache_has (P : event → bool) (id : string) : emits_only P (cache_has id).
Proof. intros st. exists []. by rewrite List.app_nil_r. Qed.

Lemma emits_return_cached (P : event → bool) (id : string) : emits_only P (return_cached id).
Proof. intros st. exists []. by rewrite List.app_nil_r. Qed.

Lemma emits_writeCacheFile (P : event → bool) (out name data : string) :
  emits_only P (writeCacheFile out name data).
Proof. intros st. exists []. by rewrite List.app_nil_r. Qed.

Lemma write_files_log (out : string) (files : list (string * string)) (st : state) :
  log (snd (write_files out files st)) = log st ∧
  world (snd (write_files out files st)) = world st.
Proof.
  revert st. induction files as [|[name data] files IH]; intros st; [done|].
  cbn [write_files]. rewrite (bind_ok _ _ _ _ _ (writeCacheFile_eq _ _ _ _)).
  match goal with |- context [write_files out files ?s] => destruct (IH s) as [-> ->] end.
  done.
Qed.

Lemma emits_call_container {A} (P : event → bool) (e : event) (out : string)
    (f : World → (list (string * string) * result A) * World) :
  P e = true → emits_only P (call_container e out f).
Proof.
  intros He st. exists [e]. unfold call_container.
  destruct (f (world st)) as [[files r] w]. cbn [snd].
  rewrite (proj1 (write_files_log _ _ _)). cbn. by rewrite He.
Qed.

Ltac emits :=
  repeat first
    [ apply emits_return_cached | apply emits_writeCacheFile
    | apply emits_ret | apply emits_throw | apply emits_cache_has
    | apply emits_bind; [|intros ?]
    | apply emits_emit; reflexivity | apply emits_call; reflexivity
    | apply emits_call_container; reflexivity
    | match goal with |- emits_only _ (if ?b then _ else _) => destruct b end
    | match goal with |- emits_only _ (match ?o with Some _ => _ | None => _ end) =>
        destruct o end ].

Lemma emits_pipeline (k : pipeline) (c : ctx) : emits_only pipeline_event (run_pipeline k c).
Proof.
  destruct k; cbn [run_pipeline];
    unfold TRANSFORMS_cssModule, TRANSFORMS_js, TRANSFORMS_css, TRANSFORMS_generic; emits.
Qed.

Lemma emits_isFile (file : string) : emits_only is_stat (isFile file).
Proof. unfold isFile. apply emits_try_catch; [by apply emits_call | intros e; apply emits_ret]. Qed.

Lemma emits_resolve_extension (cwd : string) (req : request) (path file : string) :
  emits_only is_stat (resolve_extension cwd req path file).
Proof.
  unfold resolve_extension, isCached.
  repeat first
    [ apply emits_bind; [|intros ?] | apply emits_ret | apply emits_cache_has
    | apply emits_isFile
    | match goal with |- emits_only _ (if ?b then _ else _) => destruct b end ].
Qed.

Lemma emits_weaken {A} (P Q : event → bool) (m : M A) :
  (∀ e, P e = true → Q e = true) → emits_only P m → emits_only Q m.
Proof.
  intros HPQ Hm st. destruct (Hm st) as (l & Hl & Hp). exists l. split; [done|].
  rewrite List.forallb_forall in *. auto.
Qed.

End Effects.

(* ================================================================== *)
(** ** More on the extension heuristic *)

Section HeuristicMore.
Import Str StrFacts Regex RegexFacts Wmr Spec ExtFacts.
Context `{Collaborators}.

Lemma isFile_ok (file : string) (st : state) :
  ∃ b w, isFile file st = (Ok b, with_world w (record (EvStat file) st)).
Proof. rewrite isFile_on_disk. eauto. Qed.

Lemma resolve_extension_result (cwd : string) (req : request) (path file : string) (st : state) :
  ∃ file' w l,
    resolve_extension cwd req path file st =
      (Ok file', {| WRITE_CACHE := WRITE_CACHE st; pendingChanges := pendingChanges st;
                    timers := timers st; background := background st;
                    world := w; log := log st ++ l |}) ∧
    (l = [] ∧ w = world st ∨
     l = [EvStat (file +:+ ".tsx")] ∧ file' = file +:+ ".tsx" ∨
     l = [EvStat (file +:+ ".tsx"); EvStat (file +:+ ".ts")]) ∧
    (file' = file ∨
     (file' = file +:+ ".tsx" ∨ file' = file +:+ ".ts") ∧
     test_end re_script_ext (default EmptyString (req_referer req)) = true ∧
     test_end re_long_ext path = false).
Proof.
  assert (Hsame : ∀ f, ∃ file' w l,
            ret (A := string) f st =
              (Ok file', {| WRITE_CACHE := WRITE_CACHE st; pendingChanges := pendingChanges st;
                            timers := timers st; background := background st;
                            world := w; log := log st ++ l |}) ∧ f = file' ∧ l = [] ∧ w = world st).
  { intros f. exists f, (world st), []. rewrite List.app_nil_r. by destruct st. }
  unfold resolve_extension.
  destruct (test_end re_script_ext _) eqn:Href; cbn [andb];
    [destruct (test_end re_long_ext path) eqn:Hext; cbn [andb negb]|].
  - destruct (Hsame file) as (f & w & l & -> & <- & -> & ->). eauto 10.
  - unfold isCached. rewrite bind_cache_has.
    destruct (bool_decide _).
    { destruct (Hsame (file +:+ ".tsx")) as (f & w & l & -> & <- & -> & ->).
      do 3 eexists. split; [done|]. split; [by left | right; auto]. }
    rewrite bind_cache_has. destruct (bool_decide _).
    { destruct (Hsame (file +:+ ".ts")) as (f & w & l & -> & <- & -> & ->).
      do 3 eexists. split; [done|]. split; [by left | right; auto]. }
    rewrite (bind_ok _ _ _ _ _ (isFile_on_disk _ _)).
    destruct (on_disk (file +:+ ".tsx") (world st)).
    { do 3 eexists. split; [reflexivity|]. split; [right; left; done | right; auto]. }
    rewrite (bind_ok _ _ _ _ _ (isFile_on_disk _ _)).
    cbn [world with_world record].
    destruct (on_disk (file +:+ ".ts") _).
    + do 3 eexists. split; [|split; [right; right; reflexivity | right; auto]].
      unfold ret, with_world, record.
      cbn [WRITE_CACHE pendingChanges timers background world log].
      by rewrite <- List.app_assoc.
    + do 3 eexists. split; [|split; [right; right; reflexivity | by left]].
      unfold ret, with_world, record.
      cbn [WRITE_CACHE pendingChanges timers background world log].
      by rewrite <- List.app_assoc.
  - destruct (Hsame file) as (f & w & l & -> & <- & -> & ->). eauto 10.
Qed.

(** X4. The extension heuristic cannot fail a request: a [stat] that
    throws counts as "no such file".  It returns the file itself, the file
    with [.tsx] or the file with [.ts]; it changes neither the cache nor the
    pending mirror writes; and all it does outside is at most two [stat]s,
    [.tsx] first. *)
Theorem X4_heuristic_never_throws (cwd : string) (req : request) (path file : string) (st : state) :
  ∃ file' st' l,
    resolve_extension cwd req path file st = (Ok file', st') ∧
    (file' = file ∨ file' = file +:+ ".tsx" ∨ file' = file +:+ ".ts") ∧
    WRITE_CACHE st' = WRITE_CACHE st ∧ background st' = background st ∧
    log st' = log st ++ l ∧
    (l = [] ∨ l = [EvStat (file +:+ ".tsx")] ∨
     l = [EvStat (file +:+ ".tsx"); EvStat (file +:+ ".ts")]).
Proof.
  destruct (resolve_extension_result cwd req path file st)
    as (file' & w & l & Hrun & Hl & Hfile).
  do 3 eexists. split; [exact Hrun|]. cbn [WRITE_CACHE background log].
  split; [|split; [done|split; [done|split; [done|]]]].
  - destruct Hfile as [-> | [[-> | ->] _]]; auto.
  - destruct Hl as [[-> _] | [[-> _] | ->]]; auto.
Qed.

(** X5. Without a referer, with a referer that does not end in [.ts],
    [.tsx], [.js] or [.jsx], or for a path that ends in a dot and two or
    more word characters, the heuristic does nothing at all: the file is
    kept and the state is untouched, so no [stat] is made. *)
Theorem X5_heuristic_off (cwd : string) (req : request) (path file : string) (st : state) :
  req_referer req = None ∨
  ¬ has_ext script_exts (default EmptyString (req_referer req)) ∨
  has_long_ext path →
  resolve_extension cwd req path file st = (Ok file, st).
Proof.
  intros Hoff. unfold resolve_extension.
  assert (Hcond : test_end re_script_ext (default EmptyString (req_referer req))
                  && negb (test_end re_long_ext path) = false).
  { destruct Hoff as [-> | [Hno | Hlong]].
    - reflexivity.
    - destruct (test_end re_script_ext _) eqn:Ht; [|done].
      by apply test_script_ext in Ht.
    - apply test_long_ext in Hlong. rewrite Hlong. apply andb_false_r. }
  by rewrite Hcond.
Qed.

Lemma suffix_same_length (p q b d : string) :
  p +:+ b = q +:+ d → String.length b = String.length d → b = d.
Proof.
  revert q. induction p as [|a p IH]; intros q Heq Hlen.
  - rewrite app_nil_l in Heq. destruct q as [|a' q]; [done|].
    apply (f_equal String.length) in Heq. rewrite length_app in Heq.
    cbn [String.length] in Heq. lia.
  - destruct q as [|a' q].
    + apply (f_equal String.length) in Heq. rewrite app_nil_l, length_app in Heq.
      cbn [String.length] in Heq. lia.
    + rewrite !app_cons in Heq. injection Heq as _ Heq. by apply (IH q).
Qed.

Lemma not_proxy_after_ts (file : string) :
  ¬ ends_with (file +:+ ".tsx") proxy_suffix ∧ ¬ ends_with (file +:+ ".ts") proxy_suffix.
Proof.
  split; intros [p Hp].
  - change proxy_suffix with (".cs" +:+ "s.js") in Hp. rewrite <- app_assoc in Hp.
    by apply suffix_same_length in Hp.
  - change proxy_suffix with (".css" +:+ ".js") in Hp. rewrite <- app_assoc in Hp.
    by apply suffix_same_length in Hp.
Qed.

(** X6. When the heuristic settles on another file than the one asked
    for, that file ends in [.tsx] or [.ts], and the dispatch sends the
    request to the module pipeline. *)
Theorem X6_appended_extension_is_module
    (cwd : string) (req : request) (path file file' : string) (st st' : state) :
  resolve_extension cwd req path file st = (Ok file', st') →
  file' ≠ file →
  (file' = file +:+ ".tsx" ∨ file' = file +:+ ".ts") ∧ select path file' = Js.
Proof.
  intros Hrun Hne.
  destruct (resolve_extension_result cwd req path file st) as (f & w & l & Hrun' & _ & Hfile).
  rewrite Hrun in Hrun'. injection Hrun' as <- _.
  destruct Hfile as [-> | (Hext & _ & Hlong)]; [done|]. split; [done|].
  assert (Hpath : String.eqb path "/_wmr.js" = false).
  { apply String.eqb_neq. intros ->. discriminate Hlong. }
  destruct (not_proxy_after_ts file) as [Hx Hs].
  unfold select. rewrite Hpath.
  destruct Hext as [-> | ->].
  - apply (test_end_Lit_false ".css.js") in Hx. unfold re_css_js. rewrite Hx.
    assert (Hm : test_end re_module_ext (file +:+ ".tsx") = true).
    { apply test_module_ext. exists ".tsx". split; [in_list | by exists file]. }
    by rewrite Hm.
  - apply (test_end_Lit_false ".css.js") in Hs. unfold re_css_js. rewrite Hs.
    assert (Hm : test_end re_module_ext (file +:+ ".ts") = true).
    { apply test_module_ext. exists ".ts". split; [in_list | by exists file]. }
    by rewrite Hm.
Qed.

End HeuristicMore.

(* ================================================================== *)
(** ** More on the request handler *)

Section HandlerMore.
Import Str StrFacts Regex RegexFacts Wmr Spec ExtFacts.
Context `{Collaborators}.

(** the state after [if (type) res.setHeader('content-type', type)] *)
Lemma handler_unfold (cwd out : string) (req : request) (st st1 : state) (file' : string) :
  let path := posix_normalize (req_path req) in
  let k := select path file' in
  let c := {| c_id := module_id cwd file'; c_file := file'; c_path := path;
              c_cwd := cwd; c_out := out |} in
  Str.startsWith path "/@npm/" = false →
  resolve_extension cwd req path (posix_join cwd path) st = (Ok file', st1) →
  handler cwd out req st =
    respond (pipeline_name k) (run_pipeline k c)
      match mime_getType file' with
      | Some type => record (EvSetHeader "content-type" type) st1
      | None => st1
      end.
Proof.
  intros path k c Hnpm Hres. unfold handler. fold path. rewrite Hnpm.
  rewrite (bind_ok _ _ _ _ _ Hres). fold k c.
  destruct (mime_getType file'); [by rewrite bind_emit | by rewrite bind_ret].
Qed.

Lemma resolve_extension_long (cwd : string) (req : request) (path file : string) (st : state) :
  test_end re_long_ext path = true → resolve_extension cwd req path file st = (Ok file, st).
Proof. intros Hlong. unfold resolve_extension. by rewrite Hlong, andb_false_r. Qed.

Lemma respond_keeps (name : string) (transform : M presult) (st : state) :
  WRITE_CACHE (snd (transform st)) = WRITE_CACHE st →
  background (snd (transform st)) = background st →
  WRITE_CACHE (snd (respond name transform st)) = WRITE_CACHE st ∧
  background (snd (respond name transform st)) = background st.
Proof.
  destruct (transform st) as [[[body| |]|e] st1] eqn:Ht; cbn [snd]; intros Hc Hb.
  - by rewrite (respond_content _ _ _ _ _ Ht).
  - by rewrite (respond_false _ _ _ _ Ht).
  - by rewrite (respond_nullish _ _ _ _ Ht).
  - rewrite (respond_throw _ _ _ _ _ Ht). by destruct (is_nullish e).
Qed.

(** What [respond] appends after the transform: one of four tails. *)
Lemma respond_tail (name : string) (transform : M presult) (st : state) :
  ∃ st' tail,
    respond name transform st = (Ok tt, st') ∧
    log st' = log (snd (transform st)) ++ tail ∧
    match fst (transform st) with
    | Ok (PContent body) => ∃ dur, tail = [EvWriteHead 200 (String.length body) name dur; EvEnd body]
    | Ok PFalse => tail = [EvNext None]
    | Ok PNullish => tail = []
    | Throw e => tail = if is_nullish e then [EvNext None] else [EvOnError e; EvNext (Some e)]
    end.
Proof.
  destruct (transform st) as [[[body| |]|e] st1] eqn:Ht; cbn [fst snd].
  - rewrite (respond_content _ _ _ _ _ Ht). do 2 eexists. split; [done|].
    cbn [log record]. rewrite <- List.app_assoc. eauto.
  - rewrite (respond_false _ _ _ _ Ht). do 2 eexists. split; [done|]. done.
  - rewrite (respond_nullish _ _ _ _ Ht). do 2 eexists. split; [done|].
    by rewrite List.app_nil_r.
  - rewrite (respond_throw _ _ _ _ _ Ht). destruct (is_nullish e).
    + do 2 eexists. split; [done|]. done.
    + do 2 eexists. split; [done|]. cbn [log record]. by rewrite <- List.app_assoc.
Qed.



(** X8. A request for [/_wmr.js] always calls [getWmrClient]: the cache
    is neither consulted nor changed, whatever it holds, and no [stat] is
    made. *)
Theorem X8_runtime_client_not_cached (cwd out : string) (req : request) (st : state) :
  posix_normalize (req_path req) = "/_wmr.js" →
  let st0 := match mime_getType (posix_join cwd "/_wmr.js") with
             | Some type => record (EvSetHeader "content-type" type) st
             | None => st
             end in
  handler cwd out req st =
    respond "bound getWmrClient" (call EvGetWmrClient getWmrClient) st0 ∧
  WRITE_CACHE (snd (handler cwd out req st)) = WRITE_CACHE st ∧
  background (snd (handler cwd out req st)) = background st ∧
  ∃ l, log (snd (handler cwd out req st)) = log st0 ++ EvGetWmrClient :: l.
Proof.
  intros Hpath st0.
  assert (Hrun : handler cwd out req st =
                 respond "bound getWmrClient" (call EvGetWmrClient getWmrClient) st0).
  { rewrite (handler_unfold cwd out req st st (posix_join cwd "/_wmr.js")); rewrite Hpath.
    - reflexivity.
    - reflexivity.
    - by apply resolve_extension_long. }
  split; [exact Hrun|]. rewrite Hrun.
  assert (Hcall : WRITE_CACHE (snd (call EvGetWmrClient getWmrClient st0)) = WRITE_CACHE st ∧
                  background (snd (call EvGetWmrClient getWmrClient st0)) = background st ∧
                  log (snd (call EvGetWmrClient getWmrClient st0)) = log st0 ++ [EvGetWmrClient]).
  { unfold call. destruct (getWmrClient (world st0)) as [r w]. subst st0.
    by destruct (mime_getType _). }
  destruct Hcall as (Hc & Hb & Hl).
  assert (Hst0 : WRITE_CACHE st0 = WRITE_CACHE st ∧ background st0 = background st).
  { subst st0. by destruct (mime_getType _). }
  destruct Hst0 as [Hc0 Hb0].
  destruct (respond_keeps "bound getWmrClient" (call EvGetWmrClient getWmrClient) st0)
    as [Hrc Hrb]; [congruence | congruence |].
  split; [congruence|]. split; [congruence|].
  destruct (respond_tail "bound getWmrClient" (call EvGetWmrClient getWmrClient) st0)
    as (st' & tail & Hr & Hlog & _).
  rewrite Hr. cbn [snd]. rewrite Hlog, Hl, <- List.app_assoc. eauto.
Qed.

(** X9. A request that the dispatch passes through (no module or
    stylesheet extension on the file the heuristic settled on) was not
    touched by the heuristic, and all the handler does after the optional
    content-type header is to call [next()]: nothing is written, nothing
    is cached. *)
Theorem X9_passthrough (cwd out : string) (req : request) (st st1 : state) (file' : string) :
  let path := posix_normalize (req_path req) in
  Str.startsWith path "/@npm/" = false →
  resolve_extension cwd req path (posix_join cwd path) st = (Ok file', st1) →
  select path file' = Generic →
  file' = posix_join cwd path ∧
  handler cwd out req st =
    (Ok tt, record (EvNext None)
              match mime_getType file' with
              | Some type => record (EvSetHeader "content-type" type) st1
              | None => st1
              end) ∧
  WRITE_CACHE (snd (handler cwd out req st)) = WRITE_CACHE st.
Proof.
  intros path Hnpm Hres Hsel.
  destruct (resolve_extension_result cwd req path (posix_join cwd path) st)
    as (f & w & l & Hres' & _ & Hfile).
  rewrite Hres in Hres'. injection Hres' as <- ->.
  assert (Hf : file' = posix_join cwd path).
  { destruct Hfile as [-> | ([-> | ->] & _ & Hlong)]; [done | exfalso..].
    - assert (Hm : test_end re_module_ext (posix_join cwd path +:+ ".tsx") = true).
      { apply test_module_ext. exists ".tsx". split; [in_list | by eexists]. }
      unfold select in Hsel. rewrite Hm in Hsel.
      destruct (String.eqb path "/_wmr.js"); [done|]. by destruct (test_end re_css_js _).
    - assert (Hm : test_end re_module_ext (posix_join cwd path +:+ ".ts") = true).
      { apply test_module_ext. exists ".ts". split; [in_list | by eexists]. }
      unfold select in Hsel. rewrite Hm in Hsel.
      destruct (String.eqb path "/_wmr.js"); [done|]. by destruct (test_end re_css_js _). }
  split; [exact Hf|].
  rewrite (handler_unfold cwd out req st _ file' Hnpm Hres). fold path. rewrite Hsel.
  cbn [run_pipeline pipeline_name].
  rewrite (respond_false "generic" TRANSFORMS_generic _ _ eq_refl).
  split; [done|]. cbn [snd]. by destruct (mime_getType file').
Qed.

Lemma filter_none {A} (P Q : A → bool) (l : list A) :
  (∀ x, P x = true → Q x = false) → List.forallb P l = true → List.filter Q l = [].
Proof.
  intros HPQ. induction l as [|x l IH]; [done|]. cbn.
  intros [Hx Hl]%andb_true_iff. by rewrite (HPQ x Hx), IH.
Qed.

(** X10. Every request for a path other than [/_wmr.js] ends in exactly
    one of two ways: the body is sent, or the next handler is called; it
    is never both, never twice, and never neither.  The handler itself
    always completes. *)
Theorem X10_one_ending_per_request (cwd out : string) (req : request) (st : state) :
  posix_normalize (req_path req) ≠ "/_wmr.js" →
  ∃ st' new,
    handler cwd out req st = (Ok tt, st') ∧
    log st' = log st ++ new ∧
    List.length (List.filter is_terminal new) = 1.
Proof.
  intros Hclient. set (path := posix_normalize (req_path req)) in *.
  destruct (Str.startsWith path "/@npm/") eqn:Hnpm.
  { exists (record (EvNext None) st), [EvNext None].
    unfold handler. fold path. by rewrite Hnpm. }
  destruct (resolve_extension_result cwd req path (posix_join cwd path) st)
    as (file' & w & l1 & Hres & Hl1 & _).
  rewrite (handler_unfold cwd out req st _ file' Hnpm Hres). fold path.
  set (k := select path file').
  set (c := {| c_id := module_id cwd file'; c_file := file'; c_path := path;
               c_cwd := cwd; c_out := out |}).
  set (st2 := match mime_getType file' with Some _ => _ | None => _ end).
  assert (Hl2 : ∃ l2, log st2 = log st ++ l2 ∧ List.filter is_terminal l2 = []).
  { assert (Hs : List.filter is_terminal l1 = []).
    { by destruct Hl1 as [[-> _] | [[-> _] | ->]]. }
    subst st2. destruct (mime_getType file') as [type|]; cbn [log record].
    - exists (l1 ++ [EvSetHeader "content-type" type]).
      rewrite List.app_assoc. split; [done|]. by rewrite List.filter_app, Hs.
    - eauto. }
  destruct Hl2 as (l2 & Hlog2 & Hf2).
  destruct (emits_pipeline k c st2) as (l3 & Hlog3 & Hp3).
  assert (Hf3 : List.filter is_terminal l3 = []).
  { apply (filter_none pipeline_event); [by intros [] | done]. }
  destruct (respond_tail (pipeline_name k) (run_pipeline k c) st2)
    as (st' & tail & Hr & Hlog & Htail).
  exists st', (l2 ++ l3 ++ tail). split; [exact Hr|]. split.
  { by rewrite Hlog, Hlog3, Hlog2, <- !List.app_assoc. }
  rewrite !List.filter_app, Hf2, Hf3. cbn [app].
  destruct (run_pipeline k c st2) as [[[body| |]|e] st3] eqn:Hrun; cbn [fst] in Htail.
  - by destruct Htail as [dur ->].
  - by rewrite Htail.
  - exfalso. destruct k eqn:Hk.
    + subst k. unfold select in Hk.
      destruct (String.eqb_spec path "/_wmr.js"); [done|].
      destruct (test_end re_css_js _); [done|].
      destruct (test_end re_module_ext _); [done|].
      by destruct (test_end re_style_ext _).
    + by destruct (cssModule_stored c st2 st3 PNullish Hrun) as (b & ? & _).
    + by destruct (js_stored c st2 st3 PNullish Hrun) as (b & ? & _).
    + by destruct (css_stored c st2 st3 PNullish Hrun) as (b & ? & _).
    + discriminate Hrun.
  - rewrite Htail. by destruct (is_nullish e).
Qed.

End HandlerMore.

(* ================================================================== *)
(** ** More on the pipelines and the cache *)

Section PipelinesMore.
Import Regex RegexFacts Wmr Spec ExtFacts.
Context `{Collaborators}.

Lemma bind_inv_throw {A B} (m : M A) (k : A → M B) (st st2 : state) (e : thrown) :
  (x <- m ;; k x) st = (Throw e, st2) →
  m st = (Throw e, st2) ∨ ∃ a st1, m st = (Ok a, st1) ∧ k a st1 = (Throw e, st2).
Proof. unfold bind. destruct (m st) as [[a|e'] st1]; [eauto | intros [= -> ->]; auto]. Qed.

Lemma call_inv {A} (e : event) (f : World → result A * World) (st st' : state) (r : result A) :
  call e f st = (r, st') →
  WRITE_CACHE st' = WRITE_CACHE st ∧ background st' = background st ∧
  log st' = log st ++ [e].
Proof. unfold call. destruct (f (world st)) as [r' w]. by intros [= _ <-]. Qed.

Lemma return_cached_ok (id : string) (st : state) : ∃ r, return_cached id st = (Ok r, st).
Proof. unfold return_cached. rewrite bind_cache_get. unfold ret. eauto. Qed.

Lemma js_failure (c : ctx) (st st' : state) (e : thrown) :
  TRANSFORMS_js c st = (Throw e, st') →
  WRITE_CACHE st' = WRITE_CACHE st ∧ background st' = background st.
Proof.
  unfold TRANSFORMS_js. rewrite bind_emit, bind_cache_has.
  destruct (bool_decide _).
  { destruct (return_cached_ok (c_id c) (record js_header st)) as [r Hr].
    unfold js_header in Hr. by rewrite Hr. }
  cbv zeta. intros Hrun.
  apply bind_inv_throw in Hrun as [Hc | (c1 & s1 & Hc & Hrun)];
    apply call_inv in Hc as (Hc1 & Hb1 & _);
    cbn [WRITE_CACHE background record] in Hc1, Hb1; [done|].
  apply bind_inv_throw in Hrun as [Hc | (c2 & s2 & Hc & Hrun)];
    apply call_inv in Hc as (Hc2 & Hb2 & _); [split; congruence|].
  apply bind_inv_throw in Hrun as [Hc | (c3 & s3 & Hc & Hrun)];
    apply call_inv in Hc as (Hc3 & Hb3 & _); [split; congruence|].
  by rewrite (bind_ok _ _ _ _ _ (writeCacheFile_eq _ _ _ _)) in Hrun.
Qed.

Lemma css_failure (c : ctx) (st st' : state) (e : thrown) :
  TRANSFORMS_css c st = (Throw e, st') →
  WRITE_CACHE st' = WRITE_CACHE st ∧ background st' = background st.
Proof.
  unfold TRANSFORMS_css. destruct (negb _); [by intros [= _ <-]|].
  rewrite bind_cache_has. destruct (bool_decide _).
  { destruct (return_cached_ok (c_id c) st) as [r Hr]. by rewrite Hr. }
  cbv zeta. intros Hrun.
  apply bind_inv_throw in Hrun as [Hc | (c1 & s1 & Hc & Hrun)];
    apply call_inv in Hc as (Hc1 & Hb1 & _); [done|].
  apply bind_inv_throw in Hrun as [Hc | (c2 & s2 & Hc & Hrun)];
    apply call_inv in Hc as (Hc2 & Hb2 & _); [split; congruence|].
  by rewrite (bind_ok _ _ _ _ _ (writeCacheFile_eq _ _ _ _)) in Hrun.
Qed.

(** X11. A failure is not cached: when the module pipeline or the
    stylesheet pipeline throws (the file cannot be read, the transpiler
    rejects the code, the request is declined), the cache and the pending
    mirror writes are exactly as before, so the next request for the id
    starts afresh. *)
Theorem X11_failures_not_cached (k : pipeline) (c : ctx) (st st' : state) (e : thrown) :
  k = Js ∨ k = Css →
  run_pipeline k c st = (Throw e, st') →
  WRITE_CACHE st' = WRITE_CACHE st ∧ background st' = background st.
Proof.
  intros [-> | ->]; cbn [run_pipeline]; [apply js_failure | apply css_failure].
Qed.

Lemma js_miss_reads (c : ctx) (st : state) :
  WRITE_CACHE st !! c_id c = None →
  ∃ l, log (snd (TRANSFORMS_js c st)) =
         log st ++ js_header :: EvReadFile (path_resolve (c_cwd c) (c_file c)) :: l.
Proof.
  intros Hmiss. unfold TRANSFORMS_js. rewrite bind_emit, bind_cache_has.
  cbn [WRITE_CACHE record]. rewrite Hmiss, bool_decide_eq_false_2 by (by intros [? ?]).
  cbv iota zeta. unfold bind at 1.
  destruct (call _ _ (record _ st)) as [[code|e] s1] eqn:Hc1;
    pose proof (call_inv _ _ _ _ _ Hc1) as (_ & _ & Hl1); cbn [log record] in Hl1.
  2:{ exists []. cbn [snd]. by rewrite Hl1, <- List.app_assoc. }
  assert (Hrest : emits_only (fun _ => true)
            (code0 <- call (EvTransform code (c_id c)) (NonRollup_transform code (c_id c)) ;;
             code1 <- call (EvTransformImports code0 (c_id c))
                        (transformImports code0 (c_id c) (fun spec => Some (resolveId spec))) ;;
             writeCacheFile (c_out c) (c_id c) code1 ;;; ret (PContent code1))).
  { apply emits_bind; [by apply emits_call | intros c1].
    apply emits_bind; [by apply emits_call | intros c2].
    apply emits_bind; [apply emits_writeCacheFile | intros _; apply emits_ret]. }
  destruct (Hrest s1) as (l & Hl & _). exists l. cbn [snd].
  by rewrite Hl, Hl1, <- !List.app_assoc.
Qed.

(** X12. After the watcher saw a module change, the next request for it
    through the module pipeline reads the source file again, whatever the
    cache held before. *)
Theorem X12_changed_module_is_read_again (cwd filename : string) (c : ctx) (st : state) :
  c_id c = to_posix filename →
  let st1 := on_change cwd filename st in
  ∃ l, log (snd (TRANSFORMS_js c st1)) =
         log st1 ++ js_header :: EvReadFile (path_resolve (c_cwd c) (c_file c)) :: l.
Proof.
  intros Hid st1. apply js_miss_reads. subst st1. rewrite cache_on_change, Hid.
  destruct (test_end re_module_css _).
  - destruct (decide (to_posix filename +:+ ".js" = to_posix filename)) as [-> | Hne].
    + apply lookup_delete_eq.
    + rewrite lookup_delete_ne by done. apply lookup_delete_eq.
  - apply lookup_delete_eq.
Qed.

Lemma put_all_snoc (files : list (string * string)) (name data : string)
    (cache : gmap string string) :
  put_all (files ++ [(name, data)]) cache = <[name := data]> (put_all files cache).
Proof. unfold put_all. by rewrite foldl_app. Qed.

Lemma put_all_other (files : list (string * string)) (cache : gmap string string) (k : string) :
  k ∉ files.*1 → put_all files cache !! k = cache !! k.
Proof.
  induction files as [|[name data] files IH] using rev_ind; [done|].
  rewrite fmap_app, not_elem_of_app, put_all_snoc. cbn. intros [Hk Hn].
  rewrite lookup_insert_ne; [by apply IH|]. intros ->. apply Hn. by left.
Qed.

Lemma put_all_last (before after : list (string * string)) (name data : string)
    (cache : gmap string string) :
  name ∉ after.*1 → put_all (before ++ (name, data) :: after) cache !! name = Some data.
Proof.
  intros Hn.
  assert (Happ : put_all (before ++ (name, data) :: after) cache =
                 put_all after (<[name := data]> (put_all before cache))).
  { unfold put_all. by rewrite foldl_app. }
  rewrite Happ, put_all_other by done. apply lookup_insert_eq.
Qed.

Lemma write_files_cache (out : string) (files : list (string * string)) (st : state) :
  WRITE_CACHE (snd (write_files out files st)) = put_all files (WRITE_CACHE st) ∧
  List.length (background (snd (write_files out files st))) =
    List.length (background st) + List.length files.
Proof.
  revert st. induction files as [|[name data] files IH]; intros st.
  - cbn. split; [done | lia].
  - cbn [write_files]. rewrite (bind_ok _ _ _ _ _ (writeCacheFile_eq _ _ _ _)).
    match goal with |- context [write_files out files ?s] => destruct (IH s) as [-> ->] end.
    cbn [WRITE_CACHE background with_background with_cache].
    rewrite List.length_app. cbn. split; [done | lia].
Qed.

(** X13. Every file the per-request container hands to its [writeFile]
    option during a call is put in the cache under its name, whether the
    call then succeeds or throws: the last data written under a name is
    what the cache holds, entries under other names are untouched, and one
    mirror write is left pending per file. *)
Theorem X13_emitted_files_cached {A} (e : event) (out : string)
    (f : World → (list (string * string) * result A) * World)
    (st : state) (files : list (string * string)) (r : result A) (w : World) :
  f (world st) = ((files, r), w) →
  let st' := snd (call_container e out f st) in
  fst (call_container e out f st) = r ∧
  (∀ before name data after,
     files = before ++ (name, data) :: after → name ∉ after.*1 →
     WRITE_CACHE st' !! name = Some data) ∧
  (∀ k, k ∉ files.*1 → WRITE_CACHE st' !! k = WRITE_CACHE st !! k) ∧
  List.length (background st') = List.length (background st) + List.length files.
Proof.
  intros Hf st'. subst st'. unfold call_container. rewrite Hf. cbn [fst snd].
  destruct (write_files_cache out files (with_world w (record e st))) as [-> ->].
  cbn [WRITE_CACHE background with_world record].
  split; [done|]. split; [|split; [|done]].
  - intros before name data after -> Hn. by apply put_all_last.
  - intros k Hk. by apply put_all_other.
Qed.

(** X14. [writeCacheFile] touches one entry: the entries under other
    names are as before.  A second call for the same name replaces the data
    in the cache, and both mirror writes are pending, each with the data of
    its own call. *)
Theorem X14_writeCacheFile_overwrites (out name d1 d2 : string) (st : state) :
  let st1 := snd (writeCacheFile out name d1 st) in
  let st2 := snd (writeCacheFile out name d2 st1) in
  (∀ k, k ≠ name → WRITE_CACHE st1 !! k = WRITE_CACHE st !! k) ∧
  WRITE_CACHE st2 !! name = Some d2 ∧
  WRITE_CACHE st2 = WRITE_CACHE (snd (writeCacheFile out name d2 st)) ∧
  ∃ m1 m2, background st2 = background st ++ [m1; m2] ∧
           m_file m1 = m_file m2 ∧ m_data m1 = d1 ∧ m_data m2 = d2.
Proof.
  intros st1 st2. subst st2 st1. rewrite !writeCacheFile_eq. cbn [snd].
  cbn [WRITE_CACHE background with_background with_cache].
  split; [|split; [|split]].
  - intros k Hk. by rewrite lookup_insert_ne.
  - apply lookup_insert_eq.
  - apply insert_insert_eq.
  - do 2 eexists. rewrite <- List.app_assoc. split; [reflexivity|]. done.
Qed.

Lemma run_mirror_log (m : mirror) (st : state) :
  background (snd (run_mirror m st)) = background st ∧
  log (snd (run_mirror m st)) =
    log st ++
    match m_mkdir m with
    | None => [EvWriteFile (m_file m) (m_data m)]
    | Some dir =>
        match fst (fs_mkdir dir (world st)) with
        | Ok _ => [EvMkdir dir; EvWriteFile (m_file m) (m_data m)]
        | Throw _ => [EvMkdir dir]
        end
    end.
Proof.
  unfold run_mirror, bind, call, ret. destruct (m_mkdir m) as [dir|].
  - destruct (fs_mkdir dir (world st)) as [[[]|e] w]; cbn [fst snd world with_world record].
    + destruct (fs_writeFile _ _ w) as [r w']. cbn. by rewrite <- List.app_assoc.
    + done.
  - by destruct (fs_writeFile _ _ (world st)) as [r w'].
Qed.

(** X15. The rest of a [writeCacheFile] call, for a call made with no
    other write pending: when the directory of the target is the output
    directory itself, only the file is written; otherwise the directory is
    created first, and when that throws the file is never written. *)
Theorem X15_mirror_steps (out name data : string) (st : state) :
  background st = [] →
  let file := path_resolve out name in
  let dir := path_dirname file in
  let st2 := settle (snd (writeCacheFile out name data st)) in
  background st2 = [] ∧
  (dir = out → log st2 = log st ++ [EvWriteFile file data]) ∧
  (dir ≠ out →
     match fst (fs_mkdir dir (world st)) with
     | Throw _ => log st2 = log st ++ [EvMkdir dir]
     | Ok _ => log st2 = log st ++ [EvMkdir dir; EvWriteFile file data]
     end).
Proof.
  intros Hbg file dir st2. subst st2. rewrite writeCacheFile_eq. cbn [snd].
  unfold settle. cbn [background with_background with_cache]. rewrite Hbg. cbn [app].
  fold file dir.
  match goal with |- context [run_mirror ?m ?s] =>
    destruct (run_mirror_log m s) as [-> ->] end.
  cbn [background log world m_mkdir m_file m_data with_background with_cache].
  split; [done|]. destruct (decide (dir ≠ out)) as [Hne | Heq].
  - split; [done|]. intros _. by destruct (fs_mkdir dir (world st)) as [[[]|e] w].
  - apply dec_stable in Heq. split; [done|]. done.
Qed.

End PipelinesMore.

(* ================================================================== *)
(** ** More on the watcher *)

Section WatcherMore.
Import Wmr Spec.
Context `{Collaborators}.

Lemma wrun_app (cwd : string) (evs1 evs2 : list wevent) (st : state) :
  wrun cwd (evs1 ++ evs2) st = wrun cwd evs2 (wrun cwd evs1 st).
Proof. unfold wrun. apply foldl_app. Qed.

Lemma notifications_step (cwd : string) (e : wevent) (st : state) :
  armed st →
  notifications (wstep cwd st e) = notifications st ∨
  notifications (wstep cwd st e) = notifications st ++ [pendingChanges st] ∧
  pendingChanges st ≠ [].
Proof.
  intros Harmed. destruct e as [filename|]; cbn [wstep].
  - left. apply on_change_notifications.
  - destruct Harmed as [[Hp Ht] | [Hne (n & Ht & Hn)]].
    + left. by destruct (tick_idle st Ht) as (_ & _ & ->).
    + destruct (decide (n ≤ 1)) as [Hfire | Hwait].
      * right. by destruct (tick_fire st n Ht Hfire) as (_ & _ & ->).
      * left. destruct (tick_wait st n Ht) as (_ & _ & ->); [lia | done].
Qed.

Lemma pending_step_NoDup (cwd : string) (e : wevent) (st : state) :
  armed st → NoDup (pendingChanges st) → NoDup (pendingChanges (wstep cwd st e)).
Proof.
  intros Harmed Hnd. destruct e as [filename|]; cbn [wstep].
  - rewrite on_change_pending. by apply NoDup_set_add.
  - destruct Harmed as [[Hp Ht] | [Hne (n & Ht & Hn)]].
    + by destruct (tick_idle st Ht) as (_ & -> & _).
    + destruct (decide (n ≤ 1)) as [Hfire | Hwait].
      * destruct (tick_fire st n Ht Hfire) as (_ & -> & _). apply NoDup_nil_2.
      * destruct (tick_wait st n Ht) as (_ & -> & _); [lia | done].
Qed.

Lemma notifications_grow (cwd : string) (evs : list wevent) (st : state) :
  armed st → ∃ more, notifications (wrun cwd evs st) = notifications st ++ more.
Proof.
  revert st. induction evs as [|e evs IH]; intros st Harmed.
  - exists []. by rewrite app_nil_r.
  - cbn [wrun foldl]. fold (wrun cwd evs (wstep cwd st e)).
    destruct (IH (wstep cwd st e)) as [more ->]; [by apply armed_step|].
    destruct (notifications_step cwd e st Harmed) as [-> | [-> _]]; [eauto|].
    rewrite <- app_assoc. eauto.
Qed.

(** X16. Whatever changes arrive and however time passes after start-up,
    a notification is never empty and never names a path twice, and there
    is one timer exactly when something is pending. *)
Theorem X16_notifications_well_formed (cwd : string) (w : World) (evs : list wevent) :
  let st := wrun cwd evs (init w) in
  Forall (fun batch => batch ≠ [] ∧ NoDup batch) (notifications st) ∧
  NoDup (pendingChanges st) ∧ armed st.
Proof.
  cbv zeta.
  assert (Hinv : ∀ st,
            Forall (fun batch => batch ≠ [] ∧ NoDup batch) (notifications st) →
            NoDup (pendingChanges st) → armed st →
            Forall (fun batch => batch ≠ [] ∧ NoDup batch) (notifications (wrun cwd evs st)) ∧
            NoDup (pendingChanges (wrun cwd evs st)) ∧ armed (wrun cwd evs st)).
  { induction evs as [|e evs IH]; intros st Hn Hp Ha; [done|].
    cbn [wrun foldl]. apply IH.
    - destruct (notifications_step cwd e st Ha) as [-> | [-> Hne]]; [done|].
      apply Forall_app. split; [done|]. by apply Forall_singleton.
    - by apply pending_step_NoDup.
    - by apply armed_step. }
  apply Hinv.
  - apply Forall_nil_2.
  - apply NoDup_nil_2.
  - by left.
Qed.

Lemma split_at_tick (evs : list wevent) (n : nat) :
  1 ≤ n ≤ ticks evs → ∃ evs1 evs2, evs = evs1 ++ Tick :: evs2 ∧ ticks evs1 = n - 1.
Proof.
  revert n. induction evs as [|[filename|] evs IH]; intros n Hn.
  - cbn in Hn. lia.
  - change (ticks (Change filename :: evs)) with (ticks evs) in Hn.
    destruct (IH n Hn) as (evs1 & evs2 & -> & Ht).
    by exists (Change filename :: evs1), evs2.
  - change (ticks (Tick :: evs)) with (S (ticks evs)) in Hn.
    destruct (decide (n = 1)) as [-> | Hne].
    + by exists [], evs.
    + destruct (IH (n - 1)) as (evs1 & evs2 & -> & Ht); [lia|].
      exists (Tick :: evs1), evs2. split; [done|].
      change (ticks (Tick :: evs1)) with (S (ticks evs1)). lia.
Qed.

(** X17. No change is kept back for more than 60ms: whatever the watcher
    was waiting for, once 60 milliseconds have passed after a change, the
    first notification sent since the change names the web path of the
    changed file. *)
Theorem X17_reported_within_60ms
    (cwd : string) (st : state) (filename : string) (evs : list wevent) :
  armed st → ticks evs = 60 →
  ∃ batch more,
    notifications (wrun cwd (Change filename :: evs) st) =
      notifications st ++ batch :: more ∧
    web_path filename ∈ batch.
Proof.
  intros Harmed Hticks. cbn [wrun foldl wstep].
  fold (wrun cwd evs (on_change cwd filename st)).
  set (opened := on_change cwd filename st).
  assert (Hop : web_path filename ∈ pendingChanges opened).
  { subst opened. rewrite on_change_pending. apply elem_of_set_add. by left. }
  assert (Hon : notifications opened = notifications st) by apply on_change_notifications.
  assert (Hoa : armed opened) by (by apply (armed_step cwd (Change filename))).
  destruct Hoa as [[Hp _] | [Hne (n & Ht & Hn)]].
  { rewrite Hp in Hop. by apply elem_of_nil in Hop. }
  destruct (split_at_tick evs n) as (evs1 & evs2 & -> & Ht1); [lia|].
  rewrite wrun_app. cbn [wrun foldl wstep].
  fold (wrun cwd evs1 opened). fold (wrun cwd evs2 (tick (wrun cwd evs1 opened))).
  destruct (window cwd evs1 opened n Hne Ht) as (Hwt & Hwn & Hwp); [lia|].
  rewrite Ht1 in Hwt. replace (n - (n - 1)) with 1 in Hwt by lia.
  destruct (tick_fire (wrun cwd evs1 opened) 1 Hwt) as (Hft & Hfp & Hfn); [lia|].
  destruct (notifications_grow cwd evs2 (tick (wrun cwd evs1 opened))) as [more Hmore].
  { left. done. }
  exists (pendingChanges (wrun cwd evs1 opened)), more.
  split.
  - rewrite Hmore, Hfn, Hwn, Hon. by rewrite <- app_assoc.
  - rewrite Hwp. apply elem_of_add_all. by left.
Qed.

End WatcherMore.

(* ================================================================== *)
(** ** The watcher and the requests keep to their own state *)

Section Separation.
Import Regex RegexFacts Wmr Spec ExtFacts.
Context `{Collaborators}.

Lemma keepsw_ret {A} (a : A) : keeps_watcher (ret a).
Proof. done. Qed.

Lemma keepsw_throw {A} (e : thrown) : keeps_watcher (throw (A := A) e).
Proof. done. Qed.

Lemma keepsw_bind {A B} (m : M A) (k : A → M B) :
  keeps_watcher m → (∀ a, keeps_watcher (k a)) → keeps_watcher (x <- m ;; k x).
Proof.
  intros Hm Hk st. specialize (Hm st). unfold bind.
  destruct (m st) as [[a|e] st1]; cbn [snd] in *; [by rewrite Hk | done].
Qed.

Lemma keepsw_try_catch {A} (m : M A) (h : thrown → M A) :
  keeps_watcher m → (∀ e, keeps_watcher (h e)) → keeps_watcher (try_catch m h).
Proof.
  intros Hm Hh st. specialize (Hm st). unfold try_catch.
  destruct (m st) as [[a|e] st1]; cbn [snd] in *; [done | by rewrite Hh].
Qed.

Lemma keepsw_emit (e : event) : keeps_watcher (emit e).
Proof. done. Qed.

Lemma keepsw_call {A} (e : event) (f : World → result A * World) : keeps_watcher (call e f).
Proof. intros st. unfold call. by destruct (f (world st)). Qed.

Lemma keepsw_cache_has (id : string) : keeps_watcher (cache_has id).
Proof. done. Qed.

Lemma keepsw_return_cached (id : string) : keeps_watcher (return_cached id).
Proof. done. Qed.

Lemma keepsw_writeCacheFile (out name data : string) :
  keeps_watcher (writeCacheFile out name data).
Proof. done. Qed.

Lemma keepsw_write_files (out : string) (files : list (string * string)) :
  keeps_watcher (write_files out files).
Proof.
  induction files as [|[name data] files IH]; [done|]. cbn [write_files].
  apply keepsw_bind; [apply keepsw_writeCacheFile | done].
Qed.

Lemma keepsw_call_container {A} (e : event) (out : string)
    (f : World → (list (string * string) * result A) * World) :
  keeps_watcher (call_container e out f).
Proof.
  intros st. unfold call_container. destruct (f (world st)) as [[files r] w]. cbn [snd].
  by rewrite keepsw_write_files.
Qed.

Ltac keepsw :=
  repeat first
    [ apply keepsw_return_cached | apply keepsw_writeCacheFile
    | apply keepsw_ret | apply keepsw_throw | apply keepsw_cache_has
    | apply keepsw_emit | apply keepsw_call | apply keepsw_call_container
    | apply keepsw_bind; [|intros ?]
    | match goal with |- keeps_watcher (if ?b then _ else _) => destruct b end
    | match goal with |- keeps_watcher (match ?o with Some _ => _ | None => _ end) =>
        destruct o end ].

Lemma keepsw_pipeline (k : pipeline) (c : ctx) : keeps_watcher (run_pipeline k c).
Proof.
  destruct k; cbn [run_pipeline];
    unfold TRANSFORMS_cssModule, TRANSFORMS_js, TRANSFORMS_css, TRANSFORMS_generic; keepsw.
Qed.

Lemma keepsw_respond (name : string) (transform : M presult) :
  keeps_watcher transform → keeps_watcher (respond name transform).
Proof.
  intros Ht st. specialize (Ht st).
  destruct (transform st) as [[[body| |]|e] st1] eqn:Hrun; cbn [snd] in Ht.
  - by rewrite (respond_content _ _ _ _ _ Hrun).
  - by rewrite (respond_false _ _ _ _ Hrun).
  - by rewrite (respond_nullish _ _ _ _ Hrun).
  - rewrite (respond_throw _ _ _ _ _ Hrun). by destruct (is_nullish e).
Qed.

Lemma keepsw_handler (cwd out : string) (req : request) : keeps_watcher (handler cwd out req).
Proof.
  unfold handler. destruct (Str.startsWith _ _); [apply keepsw_emit|].
  apply keepsw_bind.
  - unfold resolve_extension, isCached, isFile.
    repeat first
      [ apply keepsw_ret | apply keepsw_cache_has | apply keepsw_call
      | apply keepsw_try_catch; [|intros ?]
      | apply keepsw_bind; [|intros ?]
      | match goal with |- keeps_watcher (if ?b then _ else _) => destruct b end ].
  - intros file. apply keepsw_bind; [destruct (mime_getType file); keepsw|].
    intros _. apply keepsw_respond, keepsw_pipeline.
Qed.

Lemma keepsw_settle (st : state) : watcher_part (settle st) = watcher_part st.
Proof.
  unfold settle. destruct (background st) as [|m rest]; [done|].
  assert (Hm : keeps_watcher (run_mirror m)).
  { unfold run_mirror. apply keepsw_bind; [|intros _; apply keepsw_call].
    destruct (m_mkdir m); [apply keepsw_call | apply keepsw_ret]. }
  by rewrite Hm.
Qed.

Lemma wstep_cache (cwd : string) (e : wevent) (st : state) :
  WRITE_CACHE (wstep cwd st e) ⊆ WRITE_CACHE st ∧ background (wstep cwd st e) = background st.
Proof.
  destruct e as [filename|]; cbn [wstep].
  - split.
    + rewrite cache_on_change. destruct (test_end re_module_css _).
      * etrans; apply delete_subseteq.
      * apply delete_subseteq.
    + unfold on_change. cbn zeta.
      by destruct (test_end re_module_css _), (Nat.eqb _ 0).
  - unfold tick. generalize (filter (fun n => n ≤ 1) (timers st)). intros due.
    assert (Hgen : ∀ s, WRITE_CACHE (foldl (fun s _ => flushChanges s) s due) = WRITE_CACHE s ∧
                        background (foldl (fun s _ => flushChanges s) s due) = background s).
    { induction due as [|d due IH]; intros s; [done|]. cbn [foldl].
      destruct (IH (flushChanges s)) as [-> ->]. done. }
    match goal with |- context [foldl _ ?s due] => destruct (Hgen s) as [-> ->] end.
    done.
Qed.

(** X18. The watcher only ever removes cache entries: after any sequence
    of changes and timer ticks the cache is a sub-map of what it was (no
    entry added, no content altered), and the pending mirror writes are
    untouched. *)
Theorem X18_watcher_only_removes (cwd : string) (evs : list wevent) (st : state) :
  WRITE_CACHE (wrun cwd evs st) ⊆ WRITE_CACHE st ∧
  (∀ k v, WRITE_CACHE (wrun cwd evs st) !! k = Some v → WRITE_CACHE st !! k = Some v) ∧
  background (wrun cwd evs st) = background st.
Proof.
  assert (Hsub : WRITE_CACHE (wrun cwd evs st) ⊆ WRITE_CACHE st ∧
                 background (wrun cwd evs st) = background st).
  { revert st. induction evs as [|e evs IH]; intros st; [done|].
    cbn [wrun foldl]. fold (wrun cwd evs (wstep cwd st e)).
    destruct (IH (wstep cwd st e)) as [Hc ->].
    destruct (wstep_cache cwd e st) as [Hc' ->]. split; [by etrans | done]. }
  destruct Hsub as [Hc Hb]. split; [done|]. split; [|done].
  intros k v Hk. by eapply lookup_weaken.
Qed.

(** X19. Serving a request, and running a pending mirror write, never
    touch the watcher: the pending change set and the flush timer are as
    before, whatever the request was and however it ended. *)
Theorem X19_requests_leave_watcher_alone (cwd out : string) (req : request) (st : state) :
  pendingChanges (snd (handler cwd out req st)) = pendingChanges st ∧
  timers (snd (handler cwd out req st)) = timers st ∧
  pendingChanges (settle st) = pendingChanges st ∧
  timers (settle st) = timers st.
Proof.
  pose proof (keepsw_handler cwd out req st) as Hh.
  pose proof (keepsw_settle st) as Hs.
  unfold watcher_part in Hh, Hs. by simplify_eq.
Qed.

End Separation.

(* ================================================================== *)
(** ** More runs on the small project *)

Section RunsMore.
Import Str StrFacts Regex RegexFacts Wmr Spec ExtFacts.
#[local] Existing Instance Demo.collaborators.

Lemma X1_to_posix_chars_witness : to_posix "src/pages/home.tsx" = "src/pages/home.tsx".
Proof.
  destruct (X1_to_posix_chars "src/pages/home.tsx") as (_ & _ & Hposix & _).
  apply Hposix. reflexivity.
Defined.

Lemma X2_proxy_suffix_round_trip_witness :
  resolveId "./style.module.css" = "./style.module.css.js" ∧
  remove_end re_js (resolveId "./style.module.css") = "./style.module.css" ∧
  remove_end re_js "/proj/src/main.ts" = "/proj/src/main.ts".
Proof.
  split; [reflexivity|].
  destruct (X2_proxy_suffix_round_trip "./style.module.css") as (_ & _ & Hround).
  destruct (X2_proxy_suffix_round_trip "/proj/src/main.ts") as (_ & Hother & _).
  split.
  - apply Hround; [apply test_rel_or_abs | apply endsWith_spec]; reflexivity.
  - apply Hother. apply (test_end_Lit_false ".js"). reflexivity.
Defined.

Lemma X5_heuristic_off_witness :
  resolve_extension Demo.cwd (Demo.get "/src/app") "/src/app" "/proj/src/app" Demo.start =
    (Ok "/proj/src/app", Demo.start) ∧
  resolve_extension Demo.cwd (Demo.get_from "/src/main.ts" "/src/index.js")
    "/src/index.js" "/proj/src/index.js" Demo.start = (Ok "/proj/src/index.js", Demo.start).
Proof.
  split.
  - apply X5_heuristic_off. left. reflexivity.
  - apply X5_heuristic_off. right. right. apply test_long_ext. reflexivity.
Defined.

Lemma X6_appended_extension_is_module_witness :
  select "/src/app" "/proj/src/app.tsx" = Js.
Proof.
  refine (proj2 (X6_appended_extension_is_module Demo.cwd
            (Demo.get_from "/src/main.ts" "/src/app") "/src/app" "/proj/src/app"
            "/proj/src/app.tsx"
            Demo.start
            (snd (resolve_extension Demo.cwd (Demo.get_from "/src/main.ts" "/src/app")
                    "/src/app" "/proj/src/app" Demo.start))
            eq_refl _)).
  intros [=].
Defined.


Lemma X8_runtime_client_not_cached_witness :
  WRITE_CACHE (Demo.after (Demo.get "/_wmr.js") Demo.start) = WRITE_CACHE Demo.start ∧
  ∃ l, log (Demo.after (Demo.get "/_wmr.js") Demo.start) =
         [EvSetHeader "content-type" "application/javascript"] ++ EvGetWmrClient :: l.
Proof.
  destruct (X8_runtime_client_not_cached Demo.cwd Demo.out (Demo.get "/_wmr.js") Demo.start
              eq_refl) as (_ & Hcache & _ & Hlog).
  split; [exact Hcache | exact Hlog].
Defined.

Lemma X9_passthrough_witness :
  handler Demo.cwd Demo.out (Demo.get "/index.html") Demo.start =
    (Ok tt, record (EvNext None) Demo.start).
Proof.
  destruct (X9_passthrough Demo.cwd Demo.out (Demo.get "/index.html") Demo.start Demo.start
              "/proj/index.html" eq_refl eq_refl eq_refl) as (_ & Hrun & _).
  exact Hrun.
Defined.

Lemma X10_one_ending_per_request_witness :
  ∃ st' new,
    handler Demo.cwd Demo.out (Demo.get "/src/index.js") Demo.start = (Ok tt, st') ∧
    log st' = log Demo.start ++ new ∧
    List.length (List.filter is_terminal new) = 1.
Proof.
  apply X10_one_ending_per_request. intros [=].
Defined.

Lemma X11_failures_not_cached_witness :
  fst (TRANSFORMS_js Demo.missing_js Demo.start) = Throw (ThrowValue "ENOENT") ∧
  WRITE_CACHE (snd (TRANSFORMS_js Demo.missing_js Demo.start)) = WRITE_CACHE Demo.start.
Proof.
  split; [reflexivity|].
  refine (proj1 (X11_failures_not_cached Js Demo.missing_js Demo.start _ (ThrowValue "ENOENT")
                   (or_introl eq_refl) eq_refl)).
Defined.

Lemma X12_changed_module_is_read_again_witness :
  let st := snd (TRANSFORMS_js Demo.index_js Demo.start) in
  is_Some (WRITE_CACHE st !! "src/index.js") ∧
  ∃ l, log (snd (TRANSFORMS_js Demo.index_js (on_change Demo.cwd "src/index.js" st))) =
         log (on_change Demo.cwd "src/index.js" st) ++
         js_header :: EvReadFile "/proj/src/index.js" :: l.
Proof.
  intros st. split; [vm_compute; eauto|].
  exact (X12_changed_module_is_read_again Demo.cwd "src/index.js" Demo.index_js st eq_refl).
Defined.

Lemma X13_emitted_files_cached_witness :
  WRITE_CACHE (snd (call_container (EvLoad "/proj/src/style.module.css") Demo.out
                      (container_load "/proj/src/style.module.css") Demo.start))
    !! "src/style.module.css" = Some ".title_x1 { color: red }".
Proof.
  destruct (X13_emitted_files_cached (EvLoad "/proj/src/style.module.css") Demo.out
              (container_load "/proj/src/style.module.css") Demo.start _ _ _ eq_refl)
    as (_ & Hlast & _).
  apply (Hlast [] "src/style.module.css" ".title_x1 { color: red }" []); [reflexivity|].
  apply not_elem_of_nil.
Defined.

Lemma X14_writeCacheFile_overwrites_witness :
  let st1 := snd (writeCacheFile Demo.out "src/a.js" "old" Demo.start) in
  WRITE_CACHE st1 !! "src/b.js" = None ∧
  WRITE_CACHE (snd (writeCacheFile Demo.out "src/a.js" "new" st1)) !! "src/a.js" = Some "new".
Proof.
  intros st1.
  destruct (X14_writeCacheFile_overwrites Demo.out "src/a.js" "old" "new" Demo.start)
    as (Hother & Hnew & _).
  split; [|exact Hnew]. refine (Hother "src/b.js" _). intros [=].
Defined.

Lemma X15_mirror_steps_witness :
  log (settle (snd (writeCacheFile Demo.out "src/a.js" "code" Demo.start))) =
    [EvMkdir ".dist/src"; EvWriteFile ".dist/src/a.js" "code"].
Proof.
  destruct (X15_mirror_steps Demo.out "src/a.js" "code" Demo.start eq_refl) as (_ & _ & Hdir).
  apply Hdir. intros [=].
Defined.

Lemma X16_notifications_well_formed_witness :
  Forall (fun batch => batch ≠ [] ∧ NoDup batch)
    (notifications
       (wrun Demo.cwd ([Change "src/a.js"; Change "src/a.js"] ++ repeat Tick 60) (init 0))).
Proof.
  exact (proj1 (X16_notifications_well_formed Demo.cwd 0
                  ([Change "src/a.js"; Change "src/a.js"] ++ repeat Tick 60))).
Defined.

Lemma X17_reported_within_60ms_witness :
  ∃ batch more,
    notifications (wrun Demo.cwd (Change "src/a.js" :: repeat Tick 60) Demo.start) =
      notifications Demo.start ++ batch :: more ∧
    "/src/a.js" ∈ batch.
Proof.
  apply (X17_reported_within_60ms Demo.cwd Demo.start "src/a.js" (repeat Tick 60)).
  - left. done.
  - reflexivity.
Defined.

Lemma X18_watcher_only_removes_witness :
  let st := snd (TRANSFORMS_js Demo.index_js Demo.start) in
  WRITE_CACHE st !! "src/index.js" = Some "/*1*/import pad from 'left-pad'".
Proof.
  intros st.
  refine (proj1 (proj2 (X18_watcher_only_removes Demo.cwd [Change "src/other.js"; Tick] st))
            "src/index.js" "/*1*/import pad from 'left-pad'" _).
  reflexivity.
Defined.

End RunsMore.

(* ================================================================== *)
(** ** What the watcher ignores *)

Section Ignored.
Import Str StrFacts Regex RegexFacts Wmr Spec ExtFacts.

Lemma segments_nonempty (s : string) : segments s ≠ [].
Proof.
  induction s as [|c s IH]; cbn [segments]; [done|].
  destruct (is_sep c); [done|]. by destruct (segments s).
Qed.

Lemma first_segment_app (x t : string) (c : ascii) :
  sep_free x = true → is_sep c = true → head (segments (x +:+ String c t)) = Some x.
Proof.
  intros Hx Hc. induction x as [|a x IH].
  - rewrite app_nil_l. cbn [segments]. by rewrite Hc.
  - cbn [sep_free] in Hx. apply andb_true_iff in Hx as [Ha Hx].
    rewrite app_cons. cbn [segments]. apply negb_true_iff in Ha. rewrite Ha.
    specialize (IH Hx). by destruct (segments (x +:+ String c t)) as [|h r]; simplify_eq/=.
Qed.

Lemma first_segment_self (x : string) : sep_free x = true → head (segments x) = Some x.
Proof.
  induction x as [|a x IH]; [done|]. cbn [sep_free]. intros [Ha Hx]%andb_true_iff.
  cbn [segments]. apply negb_true_iff in Ha. rewrite Ha.
  specialize (IH Hx). by destruct (segments x) as [|h r]; simplify_eq/=.
Qed.

Lemma first_segment_inv (s x : string) :
  head (segments s) = Some x →
  s = x ∨ ∃ c t, is_sep c = true ∧ s = x +:+ String c t.
Proof.
  revert x. induction s as [|a s IH]; intros x; cbn [segments].
  - intros [= <-]. by left.
  - destruct (is_sep a) eqn:Ha.
    + intros [= <-]. right. by exists a, s.
    + pose proof (segments_nonempty s) as Hne.
      destruct (segments s) as [|h r] eqn:Hs; [done|]. intros [= <-].
      destruct (IH h eq_refl) as [-> | (c & t & Hc & ->)]; [by left|].
      right. by exists c, t.
Qed.

Lemma lang_ignored_names (t : string) : lang re_ignored_names t ↔ t ∈ ignored_names.
Proof.
  split.
  - intros Hl. unfold re_ignored_names in Hl. inv_lang; in_list.
  - intros Hin. unfold ignored_names in Hin. each_member Hin.
Qed.

Lemma ignored_names_sep_free (name : string) : name ∈ ignored_names → sep_free name = true.
Proof.
  unfold ignored_names. rewrite !elem_of_cons, elem_of_nil.
  by intros [-> | [-> | [-> | []]]].
Qed.

Lemma ignored_here_spec (s : string) :
  ignored_here s = true ↔ ∃ name, name ∈ ignored_names ∧ head (segments s) = Some name.
Proof.
  unfold ignored_here. rewrite orb_true_iff, matches_lang, matches_prefix_spec. split.
  - intros [Hl | (p & t & -> & Hl)].
    + apply lang_ignored_names in Hl. exists s. split; [done|].
      by apply first_segment_self, ignored_names_sep_free.
    + inversion Hl as [| |? ? name sep Hn Hs| | | |]; subst.
      apply lang_ignored_names in Hn. apply lang_cls_inv in Hs as (c & -> & Hc).
      exists name. split; [done|]. rewrite app_assoc, app_cons, app_nil_l.
      by apply first_segment_app; [apply ignored_names_sep_free|].
  - intros (name & Hn & Hhead).
    apply first_segment_inv in Hhead as [-> | (c & t & Hc & ->)].
    + left. by apply lang_ignored_names.
    + right. exists (name +:+ String c EmptyString), t. split.
      * by rewrite app_assoc, app_cons, app_nil_l.
      * constructor; [by apply lang_ignored_names | by constructor].
Qed.

Lemma ignored_after_sep_spec (s : string) :
  ignored_after_sep s = true ↔ ∃ name, name ∈ ignored_names ∧ name ∈ tail (segments s).
Proof.
  induction s as [|c s IH]; cbn [ignored_after_sep segments].
  - split; [done | intros (name & _ & Hin); by apply elem_of_nil in Hin].
  - pose proof (segments_nonempty s) as Hne.
    destruct (is_sep c) eqn:Hc; cbn [andb].
    + rewrite orb_true_iff, IH, ignored_here_spec. cbn [tail].
      destruct (segments s) as [|h r] eqn:Hs; [done|]. cbn [head tail]. split.
      * intros [(name & Hn & [= ->]) | (name & Hn & Hin)]; exists name;
          (split; [done|]); [by left | by right].
      * intros (name & Hn & [-> | Hin]%elem_of_cons); eauto.
    + cbn [orb]. rewrite IH. by destruct (segments s) as [|h r].
Qed.

(** X20. The first [ignored] pattern of the watcher matches a path
    exactly when one of its segments, cut at slashes and backslashes, is
    [node_modules], [.git] or [.DS_Store]: a longer name that only contains
    one of them is not ignored. *)
Theorem X20_ignored_segments (path : string) :
  is_ignored path = true ↔ ∃ name, name ∈ ignored_names ∧ name ∈ segments path.
Proof.
  unfold is_ignored. rewrite orb_true_iff, ignored_here_spec, ignored_after_sep_spec.
  pose proof (segments_nonempty path) as Hne.
  destruct (segments path) as [|h r]; [done|]. cbn [head tail]. split.
  - intros [(name & Hn & [= ->]) | (name & Hn & Hin)]; exists name;
      (split; [done|]); [by left | by right].
  - intros (name & Hn & [-> | Hin]%elem_of_cons); eauto.
Qed.

Lemma X20_ignored_segments_witness :
  is_ignored "src/.git/config" = true ∧ is_ignored "src/.github/ci.yml" = false ∧
  is_ignored "node_modules" = true ∧ is_ignored "lib\node_modules\x.js" = true ∧
  is_ignored "my_node_modules/x.js" = false.
Proof.
  assert (Hno : ∀ p, (¬ ∃ name, name ∈ ignored_names ∧ name ∈ segments p) → is_ignored p = false).
  { intros p Hp. destruct (is_ignored p) eqn:Hi; [|done].
    by apply X20_ignored_segments in Hi. }
  assert (Hdec : ∀ p, (∃ name, name ∈ ignored_names ∧ name ∈ segments p) ↔
                      Exists (fun name => name ∈ segments p) ignored_names).
  { intros p. rewrite Exists_exists. naive_solver. }
  split; [|split; [|split; [|split]]].
  - apply X20_ignored_segments, Hdec. apply (bool_decide_unpack _). by vm_compute.
  - apply Hno. rewrite Hdec. apply (bool_decide_unpack _). by vm_compute.
  - apply X20_ignored_segments, Hdec. apply (bool_decide_unpack _). by vm_compute.
  - apply X20_ignored_segments, Hdec. apply (bool_decide_unpack _). by vm_compute.
  - apply Hno. rewrite Hdec. apply (bool_decide_unpack _). by vm_compute.
Defined.

End Ignored.
